(** * vapi: version and capability annotations for plugin interfaces

    A shallow embedding of [vapi.py]: the metadata classes [Required] and
    [Provides], the property subclasses [RequiredProperty] and
    [ProvidesProperty], the argument helper [_helper] and the four
    decorators [required], [required_property], [provides] and
    [provides_property].

    Python objects have identity and mutable attribute dictionaries, so
    the embedding threads a store of objects through every operation; a
    Python exception is a [Raise] outcome that keeps the store reached. *)

From Stdlib Require Import ZArith String Ascii.
From stdpp Require Import gmap strings list sorting pretty.

Local Open Scope Z_scope.
Local Open Scope string_scope.

(** ** Values *)

(** Object identities. *)
Definition loc := positive.

(** The hashable values that can be elements of a set or of a sequence of
    capability names: [None], integers, strings and objects (hashed by
    identity). *)
Inductive atom :=
| ANone
| AInt (n : Z)
| AStr (s : string)
| ARef (l : loc).

Global Instance atom_eq_dec : EqDecision atom.
Proof. solve_decision. Defined.

Definition atom_to_sum (a : atom) : unit + Z + string + loc :=
  match a with
  | ANone => inl (inl (inl tt))
  | AInt n => inl (inl (inr n))
  | AStr s => inl (inr s)
  | ARef l => inr l
  end.

Definition atom_of_sum (x : unit + Z + string + loc) : atom :=
  match x with
  | inl (inl (inl _)) => ANone
  | inl (inl (inr n)) => AInt n
  | inl (inr s) => AStr s
  | inr l => ARef l
  end.

Global Instance atom_countable : Countable atom.
Proof.
  apply (inj_countable' atom_to_sum atom_of_sum).
  by intros [].
Defined.

(** The Python values the module handles: [None], booleans, integers,
    strings, sequences (lists, tuples) of hashable values, sets
    ([frozen] tells [frozenset] from [set]) and references to objects of
    the store. *)
Inductive value :=
| VNone
| VBool (b : bool)
| VInt (n : Z)
| VStr (s : string)
| VList (l : list atom)
| VSet (frozen : bool) (s : gset atom)
| VRef (l : loc).

Global Instance value_eq_dec : EqDecision value.
Proof. solve_decision. Defined.

Global Instance value_inhabited : Inhabited value := populate VNone.

(** ** Exceptions *)

Inductive exn :=
| TypeError (msg : string)
| NameError (msg : string)
| AttributeError (msg : string).

Global Instance exn_eq_dec : EqDecision exn.
Proof. solve_decision. Defined.

(** ** Objects *)

(** The two metadata classes. *)
Inductive record_class := CRequired | CProvides.

(** The two subclasses of [property]. *)
Inductive property_class := CRequiredProperty | CProvidesProperty.

(** The decoration actions [_helper] is called with: the local function
    [decorator] of [required], the one of [provides], and the two
    property classes used as callables. *)
Inductive callable :=
| required_decorator
| provides_decorator
| PropertyClass (c : property_class).

Global Instance record_class_eq_dec : EqDecision record_class.
Proof. solve_decision. Defined.
Global Instance property_class_eq_dec : EqDecision property_class.
Proof. solve_decision. Defined.
Global Instance callable_eq_dec : EqDecision callable.
Proof. solve_decision. Defined.

(** What an object is, apart from its attribute dictionary: a plain
    function (a member to decorate) with its docstring ([None] when it has
    none), an instance of a metadata class, an instance of a property class
    with the four slots [property.__init__] fills, or a [functools.partial]
    object. *)
Inductive payload :=
| PFunction (doc : value)
| PInstance (c : record_class)
| PProperty (c : property_class) (fget fset fdel doc : value)
| PPartial (func : callable) (args : list value).

Global Instance payload_eq_dec : EqDecision payload.
Proof. solve_decision. Defined.

(** An object: its payload and its [__dict__]. *)
Record object := Object {
  o_payload : payload;
  o_dict : gmap string value
}.

Global Instance object_eq_dec : EqDecision object.
Proof. solve_decision. Defined.

(** The store of objects. *)
Abbreviation heap := (gmap loc object).

(** ** The monad of Python computations *)

Inductive result (A : Type) :=
| Ok (a : A)
| Raise (e : exn).
Arguments Ok {A} a.
Arguments Raise {A} e.

Definition M (A : Type) : Type := heap → result A * heap.

Global Instance M_ret : MRet M := λ A a h, (Ok a, h).

Global Instance M_bind : MBind M := λ A B f m h,
  match m h with
  | (Ok a, h') => f a h'
  | (Raise e, h') => (Raise e, h')
  end.

Definition raise {A} (e : exn) : M A := λ h, (Raise e, h).

(** A pure operation that may raise. *)
Definition lift {A} (r : result A) : M A := λ h, (r, h).

(** Object creation: the new object gets an identity not in use. *)
Definition alloc (o : object) : M value := λ h,
  let l := fresh (dom h) in (Ok (VRef l), <[l := o]> h).

(** [obj.name = x]. Every object of the store has a [__dict__]; the other
    values (None, numbers, strings, lists, sets) reject new attributes. *)
Definition setattr (obj : value) (name : string) (x : value) : M unit := λ h,
  match obj with
  | VRef l =>
      match h !! l with
      | Some o => (Ok tt, <[l := Object (o_payload o) (<[name := x]> (o_dict o))]> h)
      | None => (Raise (AttributeError name), h)
      end
  | _ => (Raise (AttributeError name), h)
  end.

(** [obj.name], read from the object's [__dict__]. *)
Definition getattr (obj : value) (name : string) : M value := λ h,
  match obj with
  | VRef l =>
      match h !! l ≫= λ o, o_dict o !! name with
      | Some x => (Ok x, h)
      | None => (Raise (AttributeError name), h)
      end
  | _ => (Raise (AttributeError name), h)
  end.

(** A read of the variable [name] in a function whose local variables are
    [locals]. The module binds at its top level only the names of
    [module_names]; a name that is neither local nor bound there (nor a
    builtin) raises [NameError]. The functions of the module read no
    module-level variable as a value, so only the local case returns. *)
Definition module_names : list string :=
  ["functools"; "six"; "Required"; "Provides"; "RequiredProperty";
   "ProvidesProperty"; "_helper"; "required"; "required_property";
   "provides"; "provides_property"].

Definition load_name (locals : list (string * value)) (name : string) : M value :=
  match (list_to_map locals : gmap string value) !! name with
  | Some v => mret v
  | None => raise (NameError ("name '" ++ name ++ "' is not defined"))
  end.

(** ** Builtins *)

(** Truth value testing, as [if x:] and [bool(x)] do it. None of the
    objects of the store defines [__bool__] or [__len__]: they are true. *)
Definition truthy (v : value) : bool :=
  match v with
  | VNone => false
  | VBool b => b
  | VInt n => negb (n =? 0)%Z
  | VStr s => negb (bool_decide (s = ""))
  | VList l => negb (bool_decide (l = []))
  | VSet _ s => negb (bool_decide (s = ∅))
  | VRef _ => true
  end.

(** The characters of a string, as iterating over it yields them. *)
Fixpoint chars (s : string) : list atom :=
  match s with
  | EmptyString => []
  | String c s' => AStr (String c EmptyString) :: chars s'
  end.

Definition type_name (v : value) : string :=
  match v with
  | VNone => "NoneType"
  | VBool _ => "bool"
  | VInt _ => "int"
  | VStr _ => "str"
  | VList _ => "list"
  | VSet false _ => "set"
  | VSet true _ => "frozenset"
  | VRef _ => "object"
  end.

(** [frozenset(v)]: the set of the elements of an iterable; a value that
    is not iterable raises [TypeError]. *)
Definition frozenset (v : value) : result value :=
  match v with
  | VList l => Ok (VSet true (list_to_set l))
  | VSet _ s => Ok (VSet true s)
  | VStr s => Ok (VSet true (list_to_set (chars s)))
  | _ => Raise (TypeError ("'" ++ type_name v ++ "' object is not iterable"))
  end.

(** Integers, with [bool] a subclass of [int]. *)
Definition as_int (v : value) : option Z :=
  match v with
  | VInt n => Some n
  | VBool b => Some (if b then 1 else 0)
  | _ => None
  end.

Definition unorderable {A} : result A :=
  Raise (TypeError "'>=' not supported between these instances").

(** [x >= y] on hashable values of the same type. *)
Definition atom_ge (x y : atom) : result bool :=
  match x, y with
  | AInt a, AInt b => Ok (b <=? a)%Z
  | AStr a, AStr b => Ok (String.leb b a)
  | _, _ => unorderable
  end.

(** [a >= b] on sequences: the first pair of unequal elements decides,
    then the lengths. *)
Fixpoint list_ge (a b : list atom) : result bool :=
  match a, b with
  | _, [] => Ok true
  | [], _ :: _ => Ok false
  | x :: a', y :: b' => if decide (x = y) then list_ge a' b' else atom_ge x y
  end.

(** [a >= b], as Python 3 has it: the order of numbers, of strings, of
    sequences, and inclusion of sets; values that have no order (and
    values of different types) raise [TypeError]. *)
Definition py_ge (a b : value) : result value :=
  match a, b with
  | VStr x, VStr y => Ok (VBool (String.leb y x))
  | VSet _ x, VSet _ y => Ok (VBool (bool_decide (y ⊆ x)))
  | VList x, VList y =>
      match list_ge x y with
      | Ok r => Ok (VBool r)
      | Raise e => Raise e
      end
  | _, _ =>
      match as_int a, as_int b with
      | Some x, Some y => Ok (VBool (y <=? x)%Z)
      | _, _ => unorderable
      end
  end.

(** [a & b]: intersection of sets (the result has the type of the left
    operand), conjunction of booleans, bitwise and of integers. *)
Definition py_and (a b : value) : result value :=
  match a, b with
  | VSet f s, VSet _ s' => Ok (VSet f (s ∩ s'))
  | VBool x, VBool y => Ok (VBool (x && y))
  | _, _ =>
      match as_int a, as_int b with
      | Some x, Some y => Ok (VInt (Z.land x y))
      | _, _ => Raise (TypeError "unsupported operand type(s) for &")
      end
  end.

(** [d.pop(key, dflt)]: the value and the dictionary left. Python removes
    the key from [d] in place; here the dictionary left is returned and
    rebound by the caller. The only dictionary popped, the [kwargs] of
    [_helper], is the one a decorator collects its keyword arguments in:
    it is made for that call and no one else holds it. *)
Definition pop (key : string) (dflt : value) (d : gmap string value)
  : value * gmap string value :=
  (default dflt (d !! key), delete key d).

(** [sorted(d.keys())]: strings are ordered lexicographically by code. *)
Definition sorted_keys (d : gmap string value) : list string :=
  merge_sort String.le (elements (dom d)).

(** The double quote character. *)
Definition dquote : string := String "034"%char EmptyString.

(** [sep.join(l)]. *)
Definition join (sep : string) (l : list string) : string := String.concat sep l.

(** ** class Required *)

Module Required.

Definition __init__ (self since caps : value) : M unit :=
  setattr self "since" since ;;
  setattr self "caps" caps.

(** [Required(since, caps)] *)
Definition new (since caps : value) : M value :=
  self ← alloc (Object (PInstance CRequired) ∅);
  __init__ self since caps ;;
  mret self.

Definition required (self version caps : value) : M value :=
  since ← getattr self "since";
  ge ← lift (py_ge version since);
  if negb (truthy ge) then mret ge
  else
    self_caps ← getattr self "caps";
    if bool_decide (self_caps = VNone) then mret (VBool true)
    else
      common ← lift (py_and self_caps caps);
      mret (VBool (truthy common)).

End Required.

(** ** class Provides *)

Module Provides.

Definition __init__ (self since : value) : M unit :=
  setattr self "since" since.

(** [Provides(since)] *)
Definition new (since : value) : M value :=
  self ← alloc (Object (PInstance CProvides) ∅);
  __init__ self since ;;
  mret self.

End Provides.

(** ** Docstrings *)

Definition nl : string := String "010"%char EmptyString.

(** The docstrings of the four classes of the module. *)
Definition Required_doc : string :=
  nl ++ "    A utility class to bind together information about which API"
     ++ nl ++ "    version a method became required in and which capability (if any)"
     ++ nl ++ "    it corresponds to." ++ nl ++ "    ".

Definition Provides_doc : string :=
  nl ++ "    A utility class to bind together information about which API"
     ++ nl ++ "    version a method was provided in." ++ nl ++ "    ".

Definition RequiredProperty_doc : string :=
  nl ++ "    A subclass of ``property`` that adds the ``__isrequiredmethod__``"
     ++ nl ++ "    instance attribute." ++ nl ++ "    ".

Definition ProvidesProperty_doc : string :=
  nl ++ "    A subclass of ``property`` that adds the ``__isprovidedmethod__``"
     ++ nl ++ "    instance attribute." ++ nl ++ "    ".

(** The docstring of a type of the interpreter ([int], [str],
    [functools.partial], ...) is a text of the interpreter, not of the
    module: a tag stands for it, and no statement below depends on it. *)
Definition interpreter_docstring (type : string) : value :=
  VStr ("docstring of " ++ type).

(** The docstring an object has from its class. *)
Definition class_docstring (p : payload) : value :=
  match p with
  | PFunction doc => doc
  | PInstance CRequired => VStr Required_doc
  | PInstance CProvides => VStr Provides_doc
  | PProperty CRequiredProperty _ _ _ _ => VStr RequiredProperty_doc
  | PProperty CProvidesProperty _ _ _ _ => VStr ProvidesProperty_doc
  | PPartial _ _ => interpreter_docstring "functools.partial"
  end.

(** [obj.__doc__]: a function has its own docstring; an instance has the
    [__doc__] of its [__dict__] if there is one, and that of its class
    otherwise; the other values have the docstring of their type. *)
Definition docstring_of (h : heap) (obj : value) : value :=
  match obj with
  | VRef l =>
      match h !! l with
      | Some (Object (PFunction doc) _) => doc
      | Some (Object p d) => default (class_docstring p) (d !! "__doc__")
      | None => VNone
      end
  | _ => interpreter_docstring (type_name obj)
  end.

(** ** class property *)

Module property.

(** The slots of the property object. *)
Definition fill_slots (self fget fset fdel doc : value) : M unit := λ h,
  match self with
  | VRef l =>
      match h !! l with
      | Some (Object (PProperty c _ _ _ _) d) =>
          (Ok tt, <[l := Object (PProperty c fget fset fdel doc) d]> h)
      | _ => (Raise (TypeError "descriptor '__init__' requires a 'property' object"), h)
      end
  | _ => (Raise (TypeError "descriptor '__init__' requires a 'property' object"), h)
  end.

(** No docstring was given and there is a getter to take one from. *)
Definition takes_getter_doc (fget doc : value) : bool :=
  bool_decide (doc = VNone) && negb (bool_decide (fget = VNone)).

(** [property.__init__(self, fget, fset, fdel, doc)], as CPython 2.7 and 3
    (before 3.12) have it, fills the slots of the property object; when
    [doc] is [None] and there is a getter, the getter's docstring becomes
    the property's: for an instance of a subclass of [property], as here,
    it is written to the [__doc__] of the instance's [__dict__]. *)
Definition __init__ (self fget fset fdel doc : value) : M unit :=
  fill_slots self fget fset fdel doc ;;
  if takes_getter_doc fget doc then
    get_doc ← (λ h, (Ok (docstring_of h fget), h));
    setattr self "__doc__" get_doc
  else mret tt.

(** [property.__new__(cls)]: a property object with empty slots. *)
Definition __new__ (cls : property_class) : M value :=
  alloc (Object (PProperty cls VNone VNone VNone VNone) ∅).

End property.

(** ** class RequiredProperty(property) *)

Module RequiredProperty.

Definition __init__ (self req fget fset fdel doc : value) : M unit :=
  req' ← load_name [("self", self); ("req", req); ("fget", fget);
                    ("fset", fset); ("fdel", fdel); ("doc", doc)] "req";
  setattr self "__isrequiredmethod__" req' ;;
  property.__init__ self fget fset fdel doc.

(** [RequiredProperty(req, fget, fset, fdel, doc)] *)
Definition new (req fget fset fdel doc : value) : M value :=
  self ← property.__new__ CRequiredProperty;
  __init__ self req fget fset fdel doc ;;
  mret self.

End RequiredProperty.

(** ** class ProvidesProperty(property) *)

Module ProvidesProperty.

(** The parameter is called [prov]; the body assigns [req]. *)
Definition __init__ (self prov fget fset fdel doc : value) : M unit :=
  req' ← load_name [("self", self); ("prov", prov); ("fget", fget);
                    ("fset", fset); ("fdel", fdel); ("doc", doc)] "req";
  setattr self "__isprovidedmethod__" req' ;;
  property.__init__ self fget fset fdel doc.

(** [ProvidesProperty(prov, fget, fset, fdel, doc)] *)
Definition new (prov fget fset fdel doc : value) : M value :=
  self ← property.__new__ CProvidesProperty;
  __init__ self prov fget fset fdel doc ;;
  mret self.

End ProvidesProperty.

(** ** Calls *)

(** Calling [cls] with the keyword arguments [cls_args]: they are bound to
    the parameters of [__init__]; a missing or an unexpected keyword raises
    [TypeError]. *)
Definition instantiate (cls : record_class) (cls_args : gmap string value) : M value :=
  match cls with
  | CRequired =>
      if bool_decide (dom cls_args ⊆ {["since"; "caps"]}) then
        match cls_args !! "since", cls_args !! "caps" with
        | Some since, Some caps => Required.new since caps
        | _, _ => raise (TypeError "__init__() missing required arguments")
        end
      else raise (TypeError "__init__() got an unexpected keyword argument")
  | CProvides =>
      if bool_decide (dom cls_args ⊆ {["since"]}) then
        match cls_args !! "since" with
        | Some since => Provides.new since
        | None => raise (TypeError "__init__() missing required arguments")
        end
      else raise (TypeError "__init__() got an unexpected keyword argument")
  end.

(** The local function [decorator(req, func)] of [required]. *)
Definition decorator_of_required (req func : value) : M value :=
  setattr func "__isrequiredmethod__" req ;;
  mret func.

(** The local function [decorator(prov, func)] of [provides]. *)
Definition decorator_of_provides (prov func : value) : M value :=
  setattr func "__isprovidedmethod__" prov ;;
  mret func.

(** The optional parameter at position [i] of a call, [None] by default. *)
Definition optional (rest : list value) (i : nat) : value :=
  default VNone (rest !! i).

(** Calling [f] with the positional arguments [args]. The two local functions take
    exactly two arguments, the property classes one to five. *)
Definition call (f : callable) (args : list value) : M value :=
  match f, args with
  | required_decorator, [req; func] => decorator_of_required req func
  | provides_decorator, [prov; func] => decorator_of_provides prov func
  | PropertyClass c, first :: rest =>
      if bool_decide (length rest ≤ 4)%nat then
        match c with
        | CRequiredProperty =>
            RequiredProperty.new first (optional rest 0) (optional rest 1)
                                 (optional rest 2) (optional rest 3)
        | CProvidesProperty =>
            ProvidesProperty.new first (optional rest 0) (optional rest 1)
                                 (optional rest 2) (optional rest 3)
        end
      else raise (TypeError "__init__() takes at most 6 arguments")
  | _, _ => raise (TypeError "wrong number of arguments")
  end.

(** [functools.partial] of [f] and the positional arguments [args]. *)
Definition partial (f : callable) (args : list value) : M value :=
  alloc (Object (PPartial f args) ∅).

(** Calling a partial object [p] with [args]: the wrapped callable applied
    to the stored arguments followed by [args]. *)
Definition partial_call (p : value) (args : list value) : M value := λ h,
  match p with
  | VRef l =>
      match h !! l with
      | Some (Object (PPartial f stored) _) => call f (stored ++ args) h
      | _ => (Raise (TypeError "object is not a functools.partial"), h)
      end
  | _ => (Raise (TypeError "object is not a functools.partial"), h)
  end.

(** ** _helper

    [kwargs] is passed by value: the four decorators hand [_helper] the
    dictionary of their own keyword arguments, which is theirs alone, so
    that the keys [_helper] pops from it are seen by no caller. What a call
    leaves unchanged is therefore stated for the decorators, not for
    [_helper] applied to a dictionary someone else reads afterwards. The
    decorator and the class are those of this module. *)

Definition invalid_keyword_arguments (names : list string) : string :=
  "invalid keyword arguments " ++ dquote
    ++ join (dquote ++ ", " ++ dquote) names ++ dquote.

Definition invalid_positional_arguments (n : nat) : string :=
  "invalid positional arguments; expecting at most 1, got "
    ++ pretty n ++ " arguments".

Definition _helper (args : list value) (kwargs : gmap string value)
    (decorator : callable) (keys : gset string) (cls : record_class) : M value :=
  let cls_args : gmap string value := ∅ in
  (* Grab the 'since' version *)
  let '(cls_args, kwargs) :=
    if bool_decide ("since" ∈ keys) then
      let '(since, kwargs) := pop "since" (VInt 0) kwargs in
      (<["since" := since]> cls_args, kwargs)
    else (cls_args, kwargs) in
  (* Compute the capabilities *)
  '(cls_args, kwargs) ←
    (if bool_decide ("cap" ∈ keys) then
       let '(caps, kwargs) := pop "cap" VNone kwargs in
       if truthy caps then
         caps' ← lift (match caps with
                       | VStr s =>
                           (* isinstance(caps, six.string_types): [caps] *)
                           frozenset (VList [AStr s])
                       | _ => frozenset caps
                       end);
         mret (<["caps" := caps']> cls_args, kwargs)
       else mret (<["caps" := VNone]> cls_args, kwargs)
     else mret (cls_args, kwargs));
  (* Complain if there are any other keyword arguments *)
  if bool_decide (kwargs ≠ ∅) then
    raise (TypeError (invalid_keyword_arguments (sorted_keys kwargs)))
  (* Sanity-check positional arguments... *)
  else if bool_decide (1 < length args)%nat then
    raise (TypeError (invalid_positional_arguments (length args)))
  else
    (* Instantiate the class *)
    inst ← instantiate cls cls_args;
    (* Call the decorator with it *)
    match args with
    | func :: _ => call decorator [inst; func]
    | [] => partial decorator [inst]
    end.

(** ** The decorators *)

Definition required (args : list value) (kwargs : gmap string value) : M value :=
  _helper args kwargs required_decorator {["since"; "cap"]} CRequired.

Definition required_property (args : list value) (kwargs : gmap string value) : M value :=
  _helper args kwargs (PropertyClass CRequiredProperty) {["since"; "cap"]} CRequired.

Definition provides (args : list value) (kwargs : gmap string value) : M value :=
  _helper args kwargs provides_decorator {["since"]} CProvides.

Definition provides_property (args : list value) (kwargs : gmap string value) : M value :=
  _helper args kwargs (PropertyClass CProvidesProperty) {["since"]} CProvides.

(** The four decorators, to state what they share. *)
Inductive entry_point :=
| EP_required
| EP_required_property
| EP_provides
| EP_provides_property.

Definition entry (e : entry_point) : list value → gmap string value → M value :=
  match e with
  | EP_required => required
  | EP_required_property => required_property
  | EP_provides => provides
  | EP_provides_property => provides_property
  end.

(** The keyword options a decorator recognizes. *)
Definition recognized (e : entry_point) : gset string :=
  match e with
  | EP_required | EP_required_property => {["since"; "cap"]}
  | EP_provides | EP_provides_property => {["since"]}
  end.

(** The decoration action and the metadata class a decorator hands to
    [_helper]. *)
Definition action (e : entry_point) : callable :=
  match e with
  | EP_required => required_decorator
  | EP_required_property => PropertyClass CRequiredProperty
  | EP_provides => provides_decorator
  | EP_provides_property => PropertyClass CProvidesProperty
  end.

Definition cls_of (e : entry_point) : record_class :=
  match e with
  | EP_required | EP_required_property => CRequired
  | EP_provides | EP_provides_property => CProvides
  end.

(** ** Notions used in the statements *)

(** The attribute a decorator stores the metadata record under. *)
Definition metadata_attribute (e : entry_point) : string :=
  match e with
  | EP_required | EP_required_property => "__isrequiredmethod__"
  | EP_provides | EP_provides_property => "__isprovidedmethod__"
  end.

(** The [__dict__] of an instance of a metadata class, which is also the
    dictionary of keyword arguments it is made from. *)
Definition record_dict (c : record_class) (since caps : value) : gmap string value :=
  match c with
  | CRequired => <["caps" := caps]> (<["since" := since]> ∅)
  | CProvides => <["since" := since]> ∅
  end.

Definition record_object (c : record_class) (since caps : value) : object :=
  Object (PInstance c) (record_dict c since caps).

(** The [__dict__] of a new property: the metadata, and the docstring of
    the getter where [property.__init__] takes it over. *)
Definition property_dict (h : heap) (attr : string) (meta fget doc : value)
  : gmap string value :=
  if property.takes_getter_doc fget doc
  then <["__doc__" := docstring_of h fget]> {[attr := meta]}
  else {[attr := meta]}.

(** The object at [r] is a [Required] record with these two fields. *)
Definition is_Required (h : heap) (r : loc) (since caps : value) : Prop :=
  ∃ o, h !! r = Some o ∧ o_payload o = PInstance CRequired ∧
       o_dict o !! "since" = Some since ∧ o_dict o !! "caps" = Some caps.

(** A capability field: a set, or [None] when absent. *)
Definition set_or_none (frozen : bool) (caps : option (gset atom)) : value :=
  match caps with
  | None => VNone
  | Some s => VSet frozen s
  end.

(** A value [frozenset] accepts. *)
Definition iterable (v : value) : bool :=
  match v with
  | VStr _ | VList _ | VSet _ _ => true
  | _ => false
  end.

(** The [cap] option is well formed: where the decorator recognizes it and
    it is given a true value, that value is a string or an iterable. *)
Definition cap_ok (e : entry_point) (kwargs : gmap string value) : Prop :=
  "cap" ∈ recognized e →
  ∀ v, kwargs !! "cap" = Some v → truthy v = true → iterable v = true.

(** The options given that the decorator does not recognize. *)
Definition offending (e : entry_point) (kwargs : gmap string value) : gset string :=
  dom kwargs ∖ recognized e.

(** The [since] field of the record made from the options. *)
Definition since_of (kwargs : gmap string value) : value :=
  default (VInt 0) (kwargs !! "since").

(** The [caps] field of the record made from well-formed options. *)
Definition caps_of (kwargs : gmap string value) : value :=
  match kwargs !! "cap" with
  | Some (VStr s) => if bool_decide (s = "") then VNone else VSet true {[AStr s]}
  | Some (VList l) => if bool_decide (l = []) then VNone else VSet true (list_to_set l)
  | Some (VSet _ s) => if bool_decide (s = ∅) then VNone else VSet true s
  | _ => VNone
  end.

(** The metadata the object at [a] carries for the decorator [e]. *)
Definition carried (e : entry_point) (h : heap) (a : loc) : option value :=
  h !! a ≫= λ o, o_dict o !! metadata_attribute e.

(** The keyword arguments left once [_helper] has popped the options the
    decorator recognizes. *)
Definition leftover (e : entry_point) (kwargs : gmap string value) : gmap string value :=
  match e with
  | EP_required | EP_required_property => delete "cap" (delete "since" kwargs)
  | EP_provides | EP_provides_property => delete "since" kwargs
  end.

(** The configured call of [e] with options [kwargs] on [h] makes one record, with fields
    [since] and [caps], and returns a partial object that holds it. *)
Definition configured (e : entry_point) (kwargs : gmap string value) (h : heap)
    (since caps : value) (r p : loc) (h' : heap) : Prop :=
  entry e [] kwargs h = (Ok (VRef p), h') ∧
  h !! r = None ∧ h !! p = None ∧ r ≠ p ∧
  h' = <[p := Object (PPartial (action e) [VRef r]) ∅]>
         (<[r := record_object (cls_of e) since caps]> h).

(** The call of [e] with positional arguments [args] and options [kwargs]
    on [h] makes one record with fields [since] and [caps], at an identity
    not in use before. With no positional argument it returns a partial
    object that holds the record; with a member [m] (the bare form) it
    hands the record and [m] to the decoration action, and the call is
    what the action does on the store with the record. *)
Definition made_with (e : entry_point) (args : list value)
    (kwargs : gmap string value) (h : heap) (since caps : value) : Prop :=
  match args with
  | [] => ∃ r p h', configured e kwargs h since caps r p h'
  | m :: _ =>
      ∃ r, h !! r = None ∧
           entry e args kwargs h
           = call (action e) [VRef r; m]
                  (<[r := record_object (cls_of e) since caps]> h)
  end.

(** The object a decoration of the member [o] at [m] gives, for the record
    at [r]: for [required] and [provides] the member with one more
    attribute, for the property decorators a new property object with the
    member as getter ([provides_property] as its sibling: it never gets
    there). [h] is the store the getter's docstring is read from. *)
Definition decoration_of (e : entry_point) (h : heap) (m : loc) (o : object)
    (r : loc) : object :=
  match e with
  | EP_required | EP_provides =>
      Object (o_payload o) (<[metadata_attribute e := VRef r]> (o_dict o))
  | EP_required_property =>
      Object (PProperty CRequiredProperty (VRef m) VNone VNone VNone)
             (property_dict h "__isrequiredmethod__" (VRef r) (VRef m) VNone)
  | EP_provides_property =>
      Object (PProperty CProvidesProperty (VRef m) VNone VNone VNone)
             (property_dict h "__isprovidedmethod__" (VRef r) (VRef m) VNone)
  end.

(** ** Notions used for [_helper] with any key set *)

(** What the capability step of [_helper] stores for a [cap] option that is
    false, a string or an iterable. *)
Definition normalized_cap (v : value) : value :=
  match v with
  | VStr s => if bool_decide (s = "") then VNone else VSet true {[AStr s]}
  | VList l => if bool_decide (l = []) then VNone else VSet true (list_to_set l)
  | VSet _ s => if bool_decide (s = ∅) then VNone else VSet true s
  | _ => VNone
  end.

(** The keyword arguments [_helper] hands to the class, for a set [keys]
    of expected names. *)
Definition consumed (keys : gset string) (kwargs : gmap string value)
  : gmap string value :=
  let with_since : gmap string value :=
    if bool_decide ("since" ∈ keys) then <["since" := since_of kwargs]> ∅ else ∅ in
  if bool_decide ("cap" ∈ keys)
  then <["caps" := normalized_cap (default VNone (kwargs !! "cap"))]> with_since
  else with_since.

(** The keyword arguments [_helper] has not popped. *)
Definition unconsumed (keys : gset string) (kwargs : gmap string value)
  : gmap string value :=
  let without_since := if bool_decide ("since" ∈ keys) then delete "since" kwargs
                       else kwargs in
  if bool_decide ("cap" ∈ keys) then delete "cap" without_since else without_since.

(** The [cap] option, where [_helper] looks at it, is false, a string or
    an iterable. *)
Definition cap_value_ok (keys : gset string) (kwargs : gmap string value) : Prop :=
  "cap" ∈ keys →
  ∀ v, kwargs !! "cap" = Some v → truthy v = true → iterable v = true.

(** The key set fits the class: [_helper] then hands the class exactly the
    keyword arguments its [__init__] takes. *)
Definition keys_fit (keys : gset string) (cls : record_class) : Prop :=
  match cls with
  | CRequired => "since" ∈ keys ∧ "cap" ∈ keys
  | CProvides => "since" ∈ keys ∧ "cap" ∉ keys
  end.

(** A value that cannot take attributes: it is not an object of the
    store. *)
Definition plain_value (v : value) : bool :=
  match v with
  | VRef _ => false
  | _ => true
  end.

(** * Properties *)

Ltac unfold_M := unfold mbind, M_bind, mret, M_ret, lift, raise in *.

#[local] Arguments getattr : simpl never.
#[local] Arguments setattr : simpl never.
#[local] Arguments alloc : simpl never.
#[local] Arguments property.__init__ : simpl never.

(** ** The cases of the test suite *)

(** The cases of [test_vapi.py], run on the model. Where a test passes
    mock objects for [decorator] and [cls], the example takes a decoration
    action and a class of the module. *)

Section tests.

Local Abbreviation abc := (VSet false {[AStr "a"; AStr "b"; AStr "c"]}).
Local Abbreviation ac := (VSet false {[AStr "a"; AStr "c"]}).
Local Abbreviation b := (VSet false {[AStr "b"]}).

Example test_required_old :
  ((req ← Required.new (VInt 5) VNone; Required.required req (VInt 3) abc) ∅).1
  = Ok (VBool false).
Proof. by vm_compute. Qed.

Example test_required_cap_optional :
  ((req ← Required.new (VInt 5) b; Required.required req (VInt 5) ac) ∅).1
  = Ok (VBool false).
Proof. by vm_compute. Qed.

Example test_required_nocap :
  ((req ← Required.new (VInt 5) VNone; Required.required req (VInt 5) abc) ∅).1
  = Ok (VBool true).
Proof. by vm_compute. Qed.

Example test_required_withcap :
  ((req ← Required.new (VInt 5) b; Required.required req (VInt 5) abc) ∅).1
  = Ok (VBool true).
Proof. by vm_compute. Qed.

Example test_RequiredProperty_init :
  (prop ← RequiredProperty.new (VStr "req") (VRef 1%positive) VNone VNone VNone;
   getattr prop "__isrequiredmethod__") {[ 1%positive := Object (PFunction VNone) ∅ ]}
  = (Ok (VStr "req"),
     {[ 1%positive := Object (PFunction VNone) ∅;
        2%positive := Object (PProperty CRequiredProperty (VRef 1%positive)
                                        VNone VNone VNone)
                             {["__isrequiredmethod__" := VStr "req";
                               "__doc__" := VNone]} ]}).
Proof. by vm_compute. Qed.

(** The test [ProvidesPropertyTest.test_init] expects
    [prop.__isprovidedmethod__ == 'prov']. *)
Example test_ProvidesProperty_init :
  ((prop ← ProvidesProperty.new (VStr "prov") (VRef 1%positive) VNone VNone VNone;
    getattr prop "__isprovidedmethod__") {[ 1%positive := Object (PFunction VNone) ∅ ]}).1
  = Raise (NameError "name 'req' is not defined").
Proof. by vm_compute. Qed.

Example test_with_cap_seq :
  _helper [] {["cap" := VList [AStr "a"; AStr "b"; AStr "c"]]}
          required_decorator {["since"; "cap"]} CRequired ∅
  = (Ok (VRef 2%positive),
     {[ 1%positive := record_object CRequired (VInt 0)
                        (VSet true {[AStr "a"; AStr "b"; AStr "c"]});
        2%positive := Object (PPartial required_decorator [VRef 1%positive]) ∅ ]}).
Proof. by vm_compute. Qed.

Example test_with_extra_kwargs :
  _helper [] {["cap" := VStr "string"]} required_decorator {["since"]} CProvides ∅
  = (Raise (TypeError (invalid_keyword_arguments ["cap"])), ∅).
Proof. by vm_compute. Qed.

Example test_with_extra_pos_args :
  _helper [VStr "func"; VStr "extra"] ∅ required_decorator {["since"; "cap"]}
          CRequired ∅
  = (Raise (TypeError (invalid_positional_arguments 2)), ∅).
Proof. by vm_compute. Qed.

End tests.

(** ** The store *)

Lemma fresh_unused (h : heap) : h !! fresh (dom h) = None.
Proof. apply not_elem_of_dom, is_fresh. Qed.

Lemma alloc_spec (o : object) (h : heap) :
  alloc o h = (Ok (VRef (fresh (dom h))), <[fresh (dom h) := o]> h).
Proof. reflexivity. Qed.

Lemma setattr_spec (h : heap) (l : loc) (o : object) (name : string) (x : value) :
  h !! l = Some o →
  setattr (VRef l) name x h
  = (Ok tt, <[l := Object (o_payload o) (<[name := x]> (o_dict o))]> h).
Proof. intros Hl. unfold setattr. by rewrite Hl. Qed.

Lemma getattr_spec (h : heap) (l : loc) (o : object) (name : string) (x : value) :
  h !! l = Some o → o_dict o !! name = Some x →
  getattr (VRef l) name h = (Ok x, h).
Proof. intros Hl Hx. unfold getattr. rewrite Hl. simpl. by rewrite Hx. Qed.

(** ** Required.required *)

Section required_method.

Variables (h : heap) (r : loc).

Lemma required_too_old (since version : Z) (caps c : value) :
  is_Required h r (VInt since) caps →
  (version < since)%Z →
  Required.required (VRef r) (VInt version) c h = (Ok (VBool false), h).
Proof.
  intros (o & Ho & _ & Hsince & _) Hlt.
  unfold Required.required. unfold_M.
  rewrite (getattr_spec _ _ _ _ _ Ho Hsince). simpl.
  by rewrite (proj2 (Z.leb_gt since version) Hlt).
Qed.

Lemma required_unconditional (since version : Z) (c : value) :
  is_Required h r (VInt since) VNone →
  (since ≤ version)%Z →
  Required.required (VRef r) (VInt version) c h = (Ok (VBool true), h).
Proof.
  intros (o & Ho & _ & Hsince & Hcaps) Hle.
  unfold Required.required. unfold_M.
  rewrite (getattr_spec _ _ _ _ _ Ho Hsince). simpl.
  rewrite (proj2 (Z.leb_le since version) Hle). simpl.
  by rewrite (getattr_spec _ _ _ _ _ Ho Hcaps).
Qed.

Lemma required_gated (since version : Z) (fr f : bool) (s c : gset atom) :
  is_Required h r (VInt since) (VSet fr s) →
  (since ≤ version)%Z →
  Required.required (VRef r) (VInt version) (VSet f c) h
  = (Ok (VBool (negb (bool_decide (s ∩ c = ∅)))), h).
Proof.
  intros (o & Ho & _ & Hsince & Hcaps) Hle.
  unfold Required.required. unfold_M.
  rewrite (getattr_spec _ _ _ _ _ Ho Hsince). simpl.
  rewrite (proj2 (Z.leb_le since version) Hle). simpl.
  by rewrite (getattr_spec _ _ _ _ _ Ho Hcaps).
Qed.

End required_method.

Lemma Required_new_spec (since caps : value) (h : heap) :
  Required.new since caps h
  = (Ok (VRef (fresh (dom h))),
     <[fresh (dom h) := record_object CRequired since caps]> h).
Proof.
  unfold Required.new, Required.__init__. unfold_M.
  rewrite alloc_spec.
  erewrite setattr_spec by apply lookup_insert_eq. simpl.
  erewrite setattr_spec by apply lookup_insert_eq. simpl.
  by rewrite !insert_insert_eq.
Qed.

Lemma Provides_new_spec (since : value) (h : heap) :
  Provides.new since h
  = (Ok (VRef (fresh (dom h))),
     <[fresh (dom h) := record_object CProvides since VNone]> h).
Proof.
  unfold Provides.new, Provides.__init__. unfold_M.
  rewrite alloc_spec.
  erewrite setattr_spec by apply lookup_insert_eq. simpl.
  by rewrite !insert_insert_eq.
Qed.

Lemma is_Required_new (since caps : value) (h : heap) :
  is_Required (<[fresh (dom h) := record_object CRequired since caps]> h)
              (fresh (dom h)) since caps.
Proof.
  eexists. split; [apply lookup_insert_eq|]. simpl. split; [done|].
  split; by simplify_map_eq.
Qed.

(** C1. For every [Required] record, version and capability set,
    [required] returns [True] exactly when the version is at least
    [since] and the record's [caps] is [None] or shares an element with
    the given set; otherwise it returns [False]. *)
Theorem C1_required_iff (h : heap) (r : loc) (since version : Z)
    (fr : bool) (caps : option (gset atom)) (f : bool) (c : gset atom) :
  is_Required h r (VInt since) (set_or_none fr caps) →
  ∃ b : bool,
    Required.required (VRef r) (VInt version) (VSet f c) h = (Ok (VBool b), h) ∧
    (b = true ↔
       (since ≤ version)%Z ∧
       (caps = None ∨ ∃ s x, caps = Some s ∧ x ∈ s ∧ x ∈ c)).
Proof.
  intros Hr. destruct (Z_lt_le_dec version since) as [Hlt|Hle].
  - exists false. split; [by eapply required_too_old|].
    split; [done|]. intros [? _]. lia.
  - destruct caps as [s|]; simpl in Hr.
    + eexists. split; [by eapply required_gated|].
      rewrite negb_true_iff, bool_decide_eq_false. split.
      * intros Hne. split; [done|]. right.
        apply set_choose_L in Hne as [x Hx]. exists s, x.
        apply elem_of_intersection in Hx. tauto.
      * intros [_ [?|(s' & x & ? & ? & ?)]]; simplify_eq. set_solver.
    + exists true. split; [by eapply required_unconditional|].
      split; [|done]. intros _. split; [done|]. by left.
Qed.

Lemma C1_required_iff_witness :
  ∃ b : bool,
    Required.required (VRef 1%positive) (VInt 5) (VSet false {[AStr "a"; AStr "b"]})
      {[ 1%positive := record_object CRequired (VInt 5) (VSet false {[AStr "b"]}) ]}
    = (Ok (VBool b),
       {[ 1%positive := record_object CRequired (VInt 5) (VSet false {[AStr "b"]}) ]}) ∧
    (b = true ↔
       (5 ≤ 5)%Z ∧
       (Some ({[AStr "b"]} : gset atom) = None ∨
        ∃ s x, Some ({[AStr "b"]} : gset atom) = Some s ∧ x ∈ s ∧
               x ∈ ({[AStr "a"; AStr "b"]} : gset atom))).
Proof.
  apply (C1_required_iff _ 1%positive 5 5 false (Some {[AStr "b"]}) false).
  exists (record_object CRequired (VInt 5) (VSet false {[AStr "b"]})).
  repeat split; reflexivity.
Defined.

(** C7. The version gate is monotonic and an absent capability set makes
    the requirement unconditional: for [v1 <= v2] and any capability
    argument, [Required(v1, None).required(v2, S)] is [True] and
    [Required(v2 + 1, None).required(v1, S)] is [False]. *)
Theorem C7_version_gate (h : heap) (v1 v2 : Z) (S : value) :
  (v1 ≤ v2)%Z →
  (r ← Required.new (VInt v1) VNone; Required.required r (VInt v2) S) h
  = (Ok (VBool true), <[fresh (dom h) := record_object CRequired (VInt v1) VNone]> h) ∧
  (r ← Required.new (VInt (v2 + 1)) VNone; Required.required r (VInt v1) S) h
  = (Ok (VBool false),
     <[fresh (dom h) := record_object CRequired (VInt (v2 + 1)) VNone]> h).
Proof.
  intros Hle. split.
  - unfold mbind, M_bind. rewrite Required_new_spec.
    apply (required_unconditional _ _ v1 v2 S); [apply is_Required_new | done].
  - unfold mbind, M_bind. rewrite Required_new_spec.
    apply (required_too_old _ _ (v2 + 1) v1 VNone S); [apply is_Required_new | lia].
Qed.

Lemma C7_version_gate_witness :
  (r ← Required.new (VInt 3) VNone; Required.required r (VInt 5) (VSet false ∅)) ∅
  = (Ok (VBool true), <[fresh (dom (∅ : heap)) := record_object CRequired (VInt 3) VNone]> ∅) ∧
  (r ← Required.new (VInt (5 + 1)) VNone; Required.required r (VInt 3) (VSet false ∅)) ∅
  = (Ok (VBool false),
     <[fresh (dom (∅ : heap)) := record_object CRequired (VInt (5 + 1)) VNone]> ∅).
Proof. apply (C7_version_gate ∅ 3 5 (VSet false ∅)). lia. Defined.

(** C8. A [Required] record made directly with the empty set as [caps]
    is never required: [required] returns [False] for every version and
    every capability set. *)
Theorem C8_empty_caps_never_required (h : heap) (since version : Z)
    (fr f : bool) (c : gset atom) :
  (r ← Required.new (VInt since) (VSet fr ∅);
   Required.required r (VInt version) (VSet f c)) h
  = (Ok (VBool false),
     <[fresh (dom h) := record_object CRequired (VInt since) (VSet fr ∅)]> h).
Proof.
  unfold mbind, M_bind. rewrite Required_new_spec.
  destruct (Z_lt_le_dec version since) as [Hlt|Hle].
  - apply (required_too_old _ _ since version (VSet fr ∅)); [apply is_Required_new | done].
  - rewrite (required_gated _ _ since version fr f ∅ c); [|apply is_Required_new | done].
    rewrite bool_decide_eq_true_2; [done | apply (left_absorb_L ∅ (∩))].
Qed.

(** ** The property classes *)

Lemma req_not_a_module_name : "req" ∉ module_names.
Proof. apply (bool_decide_unpack _). by vm_compute. Qed.

Lemma fill_slots_spec (h : heap) (l : loc) (c : property_class)
    (g s d doc fget fset fdel doc' : value) (dict : gmap string value) :
  h !! l = Some (Object (PProperty c g s d doc) dict) →
  property.fill_slots (VRef l) fget fset fdel doc' h
  = (Ok tt, <[l := Object (PProperty c fget fset fdel doc') dict]> h).
Proof. intros Hl. unfold property.fill_slots. by rewrite Hl. Qed.

Lemma docstring_of_insert_ne (h : heap) (l : loc) (o : object) (obj : value) :
  obj ≠ VRef l → docstring_of (<[l := o]> h) obj = docstring_of h obj.
Proof.
  intros Hne. destruct obj as [| | | | | |m]; try done. simpl.
  rewrite lookup_insert_ne; [done | congruence].
Qed.

Lemma property_init_spec (h : heap) (l : loc) (c : property_class)
    (g s d doc fget fset fdel doc' : value) (dict : gmap string value) :
  h !! l = Some (Object (PProperty c g s d doc) dict) →
  fget ≠ VRef l →
  property.__init__ (VRef l) fget fset fdel doc' h
  = (Ok tt,
     <[l := Object (PProperty c fget fset fdel doc')
              (if property.takes_getter_doc fget doc'
               then <["__doc__" := docstring_of h fget]> dict else dict)]> h).
Proof.
  intros Hl Hne. unfold property.__init__. unfold_M.
  rewrite (fill_slots_spec _ _ _ _ _ _ _ _ _ _ _ _ Hl).
  destruct (property.takes_getter_doc fget doc'); [|done].
  erewrite setattr_spec by apply lookup_insert_eq. simpl.
  by rewrite insert_insert_eq, docstring_of_insert_ne.
Qed.

Lemma property_init_ok (h : heap) (l : loc) (c : property_class)
    (g s d doc fget fset fdel doc' : value) (dict : gmap string value) :
  h !! l = Some (Object (PProperty c g s d doc) dict) →
  ∃ dict',
    property.__init__ (VRef l) fget fset fdel doc' h
    = (Ok tt, <[l := Object (PProperty c fget fset fdel doc') dict']> h) ∧
    (∀ k, k ≠ "__doc__" → dict' !! k = dict !! k).
Proof.
  intros Hl. unfold property.__init__. unfold_M.
  rewrite (fill_slots_spec _ _ _ _ _ _ _ _ _ _ _ _ Hl).
  destruct (property.takes_getter_doc fget doc').
  - erewrite setattr_spec by apply lookup_insert_eq. simpl.
    eexists. rewrite insert_insert_eq. split; [done|].
    intros k Hk. by rewrite lookup_insert_ne.
  - by exists dict.
Qed.

(** A new [RequiredProperty], whatever the getter. *)
Lemma RequiredProperty_new_ok (req fget fset fdel doc : value) (h : heap) :
  ∃ dict,
    RequiredProperty.new req fget fset fdel doc h
    = (Ok (VRef (fresh (dom h))),
       <[fresh (dom h) :=
           Object (PProperty CRequiredProperty fget fset fdel doc) dict]> h) ∧
    dict !! "__isrequiredmethod__" = Some req.
Proof.
  unfold RequiredProperty.new, RequiredProperty.__init__, property.__new__, load_name.
  unfold_M. rewrite alloc_spec. simpl.
  rewrite lookup_insert_ne by done. rewrite lookup_insert_eq.
  erewrite setattr_spec by apply lookup_insert_eq. simpl.
  rewrite insert_insert_eq.
  edestruct (property_init_ok (<[fresh (dom h) :=
       Object (PProperty CRequiredProperty VNone VNone VNone VNone)
              (<["__isrequiredmethod__" := req]> ∅)]> h))
    as (dict' & -> & Hdict); [apply lookup_insert_eq|].
  exists dict'. rewrite insert_insert_eq. split; [done|].
  rewrite Hdict by done. apply lookup_insert_eq.
Qed.

(** A new [RequiredProperty] whose getter is a value of the store before
    (any value but a reference to the object being made). *)
Lemma RequiredProperty_new_spec (req fget fset fdel doc : value) (h : heap) :
  fget ≠ VRef (fresh (dom h)) →
  RequiredProperty.new req fget fset fdel doc h
  = (Ok (VRef (fresh (dom h))),
     <[fresh (dom h) :=
         Object (PProperty CRequiredProperty fget fset fdel doc)
                (property_dict h "__isrequiredmethod__" req fget doc)]> h).
Proof.
  intros Hne.
  unfold RequiredProperty.new, RequiredProperty.__init__, property.__new__, load_name.
  unfold_M. rewrite alloc_spec. simpl.
  rewrite lookup_insert_ne by done. rewrite lookup_insert_eq.
  erewrite setattr_spec by apply lookup_insert_eq. simpl.
  rewrite insert_insert_eq.
  erewrite property_init_spec; [|apply lookup_insert_eq|done].
  rewrite insert_insert_eq, docstring_of_insert_ne by done.
  unfold property_dict. by destruct (property.takes_getter_doc fget doc).
Qed.

Lemma ProvidesProperty_new_spec (prov fget fset fdel doc : value) (h : heap) :
  ProvidesProperty.new prov fget fset fdel doc h
  = (Raise (NameError "name 'req' is not defined"),
     <[fresh (dom h) :=
         Object (PProperty CProvidesProperty VNone VNone VNone VNone) ∅]> h).
Proof.
  unfold ProvidesProperty.new, ProvidesProperty.__init__, property.__new__, load_name.
  unfold_M. rewrite alloc_spec. simpl.
  rewrite !lookup_insert_ne by done. by rewrite lookup_empty.
Qed.

(** C2. Constructing [ProvidesProperty(prov, fget, fset, fdel, doc)] does
    not succeed: whatever the arguments, [__init__] reads the variable
    [req], which the method does not bind, and raises [NameError] before
    anything is stored on the property object. *)
Theorem C2_ProvidesProperty_raises (prov fget fset fdel doc : value) (h : heap) :
  ProvidesProperty.new prov fget fset fdel doc h
  = (Raise (NameError "name 'req' is not defined"),
     <[fresh (dom h) :=
         Object (PProperty CProvidesProperty VNone VNone VNone VNone) ∅]> h).
Proof. apply ProvidesProperty_new_spec. Qed.

(** ** _helper, as the four decorators call it *)

Lemma instantiate_spec (c : record_class) (since caps : value) (h : heap) :
  instantiate c (record_dict c since caps) h
  = (Ok (VRef (fresh (dom h))), <[fresh (dom h) := record_object c since caps]> h).
Proof.
  destruct c; unfold instantiate, record_dict.
  - rewrite bool_decide_eq_true_2 by (rewrite !dom_insert_L; set_solver).
    rewrite lookup_insert_ne by done. rewrite !lookup_insert_eq.
    apply Required_new_spec.
  - rewrite bool_decide_eq_true_2 by (rewrite !dom_insert_L; set_solver).
    rewrite !lookup_insert_eq.
    apply Provides_new_spec.
Qed.

Lemma dom_leftover (e : entry_point) (kwargs : gmap string value) :
  dom (leftover e kwargs) = offending e kwargs.
Proof.
  unfold offending. destruct e; simpl; rewrite !dom_delete_L;
    apply set_eq; intros x;
    rewrite !elem_of_difference, ?elem_of_union, !elem_of_singleton; tauto.
Qed.

Lemma leftover_empty (e : entry_point) (kwargs : gmap string value) :
  leftover e kwargs = ∅ ↔ offending e kwargs = ∅.
Proof.
  rewrite <- dom_leftover. split; [by intros -> | apply dom_empty_inv_L].
Qed.

Lemma frozenset_singleton (s : string) :
  frozenset (VList [AStr s]) = Ok (VSet true {[AStr s]}).
Proof. unfold frozenset. simpl. by rewrite (right_id_L ∅ (∪)). Qed.

Ltac helper_cases :=
  unfold frozenset; unfold_M; cbn [truthy]; cbv beta iota zeta;
  repeat (match goal with
          | |- context [bool_decide ?P] => destruct (bool_decide P)
          end);
  reflexivity.

Lemma nothing_left (e : entry_point) (kwargs : gmap string value) :
  offending e kwargs = ∅ → bool_decide (leftover e kwargs ≠ ∅) = false.
Proof.
  intros Hoff. apply bool_decide_eq_false_2. intros Hne.
  by apply Hne, leftover_empty.
Qed.

Lemma something_left (e : entry_point) (kwargs : gmap string value) :
  offending e kwargs ≠ ∅ → bool_decide (leftover e kwargs ≠ ∅) = true.
Proof.
  intros Hoff. apply bool_decide_eq_true_2. by rewrite leftover_empty.
Qed.

(** Where the [cap] option is well formed, the capability step of
    [_helper] cannot raise, and a call of a decorator goes through the
    two checks and then to the decoration. *)
Lemma entry_unfold (e : entry_point) (args : list value)
    (kwargs : gmap string value) (h : heap) :
  cap_ok e kwargs →
  entry e args kwargs h =
  if bool_decide (leftover e kwargs ≠ ∅) then
    (Raise (TypeError (invalid_keyword_arguments (sorted_keys (leftover e kwargs)))), h)
  else if bool_decide (1 < length args)%nat then
    (Raise (TypeError (invalid_positional_arguments (length args))), h)
  else
    (inst ← instantiate (cls_of e)
              (record_dict (cls_of e) (since_of kwargs) (caps_of kwargs));
     match args with
     | func :: _ => call (action e) [inst; func]
     | [] => partial (action e) [inst]
     end) h.
Proof.
  intros Hcap.
  destruct e; unfold entry, required, required_property, provides,
    provides_property, _helper, pop, leftover, cls_of, action.
  1,2: rewrite !(bool_decide_eq_true_2 (_ ∈ _)) by set_solver;
    rewrite lookup_delete_ne by done;
    unfold caps_of, since_of, record_dict;
    assert ("cap" ∈ recognized EP_required) as Hin by (simpl; set_solver);
    specialize (Hcap Hin);
    destruct (kwargs !! "cap") as [v|] eqn:Hv; simpl default;
    [ destruct (truthy v) eqn:Ht;
      [ specialize (Hcap v eq_refl Ht); destruct v; try discriminate;
        simpl in Ht; apply negb_true_iff in Ht; rewrite Ht;
        rewrite ?frozenset_singleton; helper_cases
      | destruct v; try helper_cases;
        simpl in Ht; apply negb_false_iff in Ht; rewrite Ht; helper_cases ]
    | helper_cases ].
  1,2: rewrite (bool_decide_eq_true_2 ("since" ∈ _)) by set_solver;
    rewrite (bool_decide_eq_false_2 ("cap" ∈ _)) by set_solver;
    helper_cases.
Qed.

(** ** The decoration actions *)

Lemma call_required_decorator (h : heap) (req : value) (m : loc) (o : object) :
  h !! m = Some o →
  call required_decorator [req; VRef m] h
  = (Ok (VRef m),
     <[m := Object (o_payload o) (<["__isrequiredmethod__" := req]> (o_dict o))]> h).
Proof.
  intros Hm. unfold call, decorator_of_required. unfold_M.
  by rewrite (setattr_spec _ _ _ _ _ Hm).
Qed.

Lemma call_provides_decorator (h : heap) (prov : value) (m : loc) (o : object) :
  h !! m = Some o →
  call provides_decorator [prov; VRef m] h
  = (Ok (VRef m),
     <[m := Object (o_payload o) (<["__isprovidedmethod__" := prov]> (o_dict o))]> h).
Proof.
  intros Hm. unfold call, decorator_of_provides. unfold_M.
  by rewrite (setattr_spec _ _ _ _ _ Hm).
Qed.

Lemma call_RequiredProperty_ok (h : heap) (req fget : value) :
  ∃ dict,
    call (PropertyClass CRequiredProperty) [req; fget] h
    = (Ok (VRef (fresh (dom h))),
       <[fresh (dom h) :=
           Object (PProperty CRequiredProperty fget VNone VNone VNone) dict]> h) ∧
    dict !! "__isrequiredmethod__" = Some req.
Proof. unfold call. simpl. apply RequiredProperty_new_ok. Qed.

Lemma call_RequiredProperty (h : heap) (req fget : value) :
  fget ≠ VRef (fresh (dom h)) →
  call (PropertyClass CRequiredProperty) [req; fget] h
  = (Ok (VRef (fresh (dom h))),
     <[fresh (dom h) :=
         Object (PProperty CRequiredProperty fget VNone VNone VNone)
                (property_dict h "__isrequiredmethod__" req fget VNone)]> h).
Proof. intros Hne. unfold call. simpl. by apply RequiredProperty_new_spec. Qed.

Lemma call_ProvidesProperty (h : heap) (prov fget : value) :
  call (PropertyClass CProvidesProperty) [prov; fget] h
  = (Raise (NameError "name 'req' is not defined"),
     <[fresh (dom h) :=
         Object (PProperty CProvidesProperty VNone VNone VNone VNone) ∅]> h).
Proof. unfold call. simpl. apply ProvidesProperty_new_spec. Qed.

Lemma partial_call_spec (h : heap) (p : loc) (f : callable)
    (stored args : list value) (d : gmap string value) :
  h !! p = Some (Object (PPartial f stored) d) →
  partial_call (VRef p) args h = call f (stored ++ args) h.
Proof. intros Hp. unfold partial_call. by rewrite Hp. Qed.

(** ** The two calling conventions *)

Section conventions.

Variables (e : entry_point) (kwargs : gmap string value) (h : heap).
Hypothesis Hcap : cap_ok e kwargs.
Hypothesis Hrecognized : offending e kwargs = ∅.

(** Where the record is made, and where the partial object. *)
Local Abbreviation r := (fresh (dom h)).
Local Abbreviation rec := (record_object (cls_of e) (since_of kwargs) (caps_of kwargs)).
Local Abbreviation p := (fresh (dom (<[r := rec]> h))).

Lemma record_loc_unused : h !! r = None.
Proof. apply fresh_unused. Qed.

Lemma partial_loc_unused : h !! p = None ∧ r ≠ p.
Proof.
  pose proof (fresh_unused (<[r := rec]> h)) as Hp.
  apply lookup_insert_None in Hp. tauto.
Qed.

Lemma entry_bare (m : value) :
  entry e [m] kwargs h = call (action e) [VRef r; m] (<[r := rec]> h).
Proof.
  rewrite entry_unfold by done.
  rewrite nothing_left by done.
  rewrite bool_decide_eq_false_2 by (simpl; lia).
  unfold mbind, M_bind. by rewrite instantiate_spec.
Qed.

Lemma entry_configured :
  configured e kwargs h (since_of kwargs) (caps_of kwargs) r p
    (<[p := Object (PPartial (action e) [VRef r]) ∅]> (<[r := rec]> h)).
Proof.
  destruct partial_loc_unused as [Hp Hne].
  split; [|by auto using record_loc_unused].
  rewrite entry_unfold by done.
  rewrite nothing_left by done.
  rewrite bool_decide_eq_false_2 by (simpl; lia).
  unfold mbind, M_bind. by rewrite instantiate_spec.
Qed.

Lemma entry_configured_at :
  ∃ r p : loc,
    configured e kwargs h (since_of kwargs) (caps_of kwargs) r p
      (<[p := Object (PPartial (action e) [VRef r]) ∅]>
         (<[r := record_object (cls_of e) (since_of kwargs) (caps_of kwargs)]> h)).
Proof. exists r, p. apply entry_configured. Qed.

End conventions.

(** ** Normalizing the options *)

(** C5. For the decorators that recognize [cap], called with a member
    (the bare form) or without one: a non-empty string [s] gives the
    record the capability set [{s}]; a non-empty sequence or set gives it
    the set of its elements; [None], the empty string, the empty sequence
    or set, or no [cap] at all give it [None]. A set made this way is a
    [frozenset]. *)
Theorem C5_cap_normalized (e : entry_point) (args : list value)
    (kwargs : gmap string value) (h : heap) :
  "cap" ∈ recognized e →
  offending e kwargs = ∅ →
  (length args ≤ 1)%nat →
  let made caps := made_with e args kwargs h (since_of kwargs) caps in
  (∀ s, s ≠ "" → kwargs !! "cap" = Some (VStr s) → made (VSet true {[AStr s]})) ∧
  (∀ l, l ≠ [] → kwargs !! "cap" = Some (VList l) → made (VSet true (list_to_set l))) ∧
  (∀ f s, s ≠ ∅ → kwargs !! "cap" = Some (VSet f s) → made (VSet true s)) ∧
  (kwargs !! "cap" = None ∨ kwargs !! "cap" = Some VNone ∨
   kwargs !! "cap" = Some (VStr "") ∨ kwargs !! "cap" = Some (VList []) ∨
   (∃ f, kwargs !! "cap" = Some (VSet f ∅)) →
   made VNone).
Proof.
  intros _ Hoff Hlen made.
  assert (∀ v, (kwargs !! "cap" = Some v → truthy v = true → iterable v = true) →
            (∀ v', kwargs !! "cap" = Some v' → v' = v) →
            made (caps_of kwargs)) as Hmade.
  { intros v Hv Huniq.
    assert (cap_ok e kwargs) as Hcap.
    { intros _ v' Hv'. pose proof (Huniq _ Hv') as ->. auto. }
    unfold made, made_with. destruct args as [|m [|m' args]].
    - do 3 eexists. by apply entry_configured.
    - exists (fresh (dom h)). split; [apply fresh_unused|].
      by apply entry_bare.
    - simpl in Hlen. lia. }
  repeat split.
  - intros s Hs Hk. specialize (Hmade (VStr s)). unfold caps_of in Hmade.
    rewrite Hk, bool_decide_eq_false_2 in Hmade by done.
    apply Hmade; [done | congruence].
  - intros l Hl Hk. specialize (Hmade (VList l)). unfold caps_of in Hmade.
    rewrite Hk, bool_decide_eq_false_2 in Hmade by done.
    apply Hmade; [done | congruence].
  - intros f s Hs Hk. specialize (Hmade (VSet f s)). unfold caps_of in Hmade.
    rewrite Hk, bool_decide_eq_false_2 in Hmade by done.
    apply Hmade; [done | congruence].
  - intros [Hk|[Hk|[Hk|[Hk|[f Hk]]]]].
    + specialize (Hmade VNone). unfold caps_of in Hmade. rewrite Hk in Hmade.
      apply Hmade; [done | congruence].
    + specialize (Hmade VNone). unfold caps_of in Hmade. rewrite Hk in Hmade.
      apply Hmade; [done | congruence].
    + specialize (Hmade (VStr "")). unfold caps_of in Hmade. rewrite Hk in Hmade.
      apply Hmade; [done | congruence].
    + specialize (Hmade (VList [])). unfold caps_of in Hmade. rewrite Hk in Hmade.
      apply Hmade; [done | congruence].
    + specialize (Hmade (VSet f ∅)). unfold caps_of in Hmade.
      rewrite Hk, bool_decide_eq_true_2 in Hmade by done.
      apply Hmade; [done | congruence].
Qed.

Lemma C5_cap_normalized_witness :
  made_with EP_required [VRef 1%positive] {["cap" := VStr "x"]}
            {[ 1%positive := Object (PFunction VNone) ∅ ]}
            (VInt 0) (VSet true {[AStr "x"]}).
Proof.
  assert ("cap" ∈ recognized EP_required) as Hin by (by vm_compute).
  assert (offending EP_required {["cap" := VStr "x"]} = ∅) as Hoff by (by vm_compute).
  assert (length [VRef 1%positive] ≤ 1)%nat as Hlen by (simpl; lia).
  destruct (C5_cap_normalized EP_required [VRef 1%positive] {["cap" := VStr "x"]}
              {[ 1%positive := Object (PFunction VNone) ∅ ]} Hin Hoff Hlen)
    as [Hstr _].
  apply (Hstr "x"); [discriminate | reflexivity].
Defined.

(** C6. [required(since=2, cap='x')] applied to a function [f] returns
    [f] itself; [f] is as before but for its attribute
    [__isrequiredmethod__], which is a new [Required] record whose [since]
    is [2] and whose [caps] is the frozen set [{'x'}]. *)
Theorem C6_required_since_2_cap_x (h : heap) (f : loc) (o : object) :
  h !! f = Some o →
  ∃ (p r : loc) (h1 h2 : heap),
    required [] {["since" := VInt 2; "cap" := VStr "x"]} h = (Ok (VRef p), h1) ∧
    partial_call (VRef p) [VRef f] h1 = (Ok (VRef f), h2) ∧
    h2 !! f = Some (Object (o_payload o)
                      (<["__isrequiredmethod__" := VRef r]> (o_dict o))) ∧
    h !! r = None ∧
    is_Required h2 r (VInt 2) (VSet true {[AStr "x"]}).
Proof.
  intros Hf.
  set (kwargs := {["since" := VInt 2; "cap" := VStr "x"]} : gmap string value).
  assert (cap_ok EP_required kwargs) as Hcap.
  { intros _ v Hv _.
    assert (kwargs !! "cap" = Some (VStr "x")) as Hk by reflexivity.
    rewrite Hk in Hv. by injection Hv as <-. }
  assert (offending EP_required kwargs = ∅) as Hoff by (by vm_compute).
  destruct (entry_configured_at EP_required kwargs h Hcap Hoff)
    as (r & p & Hcall & Hr & Hp & Hne & _).
  change (since_of kwargs) with (VInt 2) in *.
  change (caps_of kwargs) with (VSet true {[AStr "x"]}) in *.
  simpl in Hcall.
  assert (r ≠ f ∧ p ≠ f) as [Hrf Hpf] by (split; intros ->; congruence).
  exists p, r. do 2 eexists. split; [exact Hcall|].
  split.
  { erewrite partial_call_spec by apply lookup_insert_eq. simpl.
    apply call_required_decorator.
    by rewrite !lookup_insert_ne. }
  split; [by rewrite lookup_insert_eq|].
  split; [done|].
  eexists. split.
  { rewrite !lookup_insert_ne by done. apply lookup_insert_eq. }
  by simplify_map_eq.
Qed.

Lemma C6_required_since_2_cap_x_witness :
  ∃ (p r : loc) (h1 h2 : heap),
    required [] {["since" := VInt 2; "cap" := VStr "x"]}
             {[ 1%positive := Object (PFunction VNone) ∅ ]} = (Ok (VRef p), h1) ∧
    partial_call (VRef p) [VRef 1%positive] h1 = (Ok (VRef 1%positive), h2) ∧
    h2 !! 1%positive
      = Some (Object (PFunction VNone) (<["__isrequiredmethod__" := VRef r]> ∅)) ∧
    ({[ 1%positive := Object (PFunction VNone) ∅ ]} : heap) !! r = None ∧
    is_Required h2 r (VInt 2) (VSet true {[AStr "x"]}).
Proof.
  apply (C6_required_since_2_cap_x {[ 1%positive := Object (PFunction VNone) ∅ ]}
           1%positive (Object (PFunction VNone) ∅)).
  reflexivity.
Defined.

(** ** The configured form against the bare form *)

Lemma unused_differs (h : heap) (l l' : loc) (o : object) :
  h !! l = None → h !! l' = Some o → l ≠ l'.
Proof. intros Hl Hl' ->. congruence. Qed.

Lemma docstring_of_same_object (h h' : heap) (m : loc) :
  h' !! m = h !! m → docstring_of h' (VRef m) = docstring_of h (VRef m).
Proof. intros Heq. simpl. by rewrite Heq. Qed.

(** For [required], [required_property] and [provides], every member and
    every valid set of recognized options: the call without positional
    argument makes the record from the options and returns a partial
    object that holds it; applying that object to the member and calling
    the decorator with the member both return the decorated member (the
    member itself, or a new property object each), with equal contents,
    carrying a record of these options, over stores that agree on the
    objects there were. *)
Lemma configured_matches_bare (e : entry_point) (m : loc) (o : object)
    (kwargs : gmap string value) (h : heap) :
  e ≠ EP_provides_property →
  h !! m = Some o →
  cap_ok e kwargs →
  offending e kwargs = ∅ →
  ∃ (r p a b : loc) (h1 hx hy : heap),
    configured e kwargs h (since_of kwargs) (caps_of kwargs) r p h1 ∧
    partial_call (VRef p) [VRef m] h1 = (Ok (VRef a), hx) ∧
    entry e [VRef m] kwargs h = (Ok (VRef b), hy) ∧
    (a = m ∧ b = m ∨ h1 !! a = None ∧ h !! b = None) ∧
    hx !! a = Some (decoration_of e h m o r) ∧
    hy !! b = Some (decoration_of e h m o r) ∧
    hx !! r = Some (record_object (cls_of e) (since_of kwargs) (caps_of kwargs)) ∧
    hy !! r = Some (record_object (cls_of e) (since_of kwargs) (caps_of kwargs)) ∧
    (∀ l, is_Some (h !! l) → l ≠ m → hx !! l = h !! l ∧ hy !! l = h !! l).
Proof.
  intros He Hm Hcap Hoff.
  pose proof (entry_configured e kwargs h Hcap Hoff) as Hconf.
  pose proof Hconf as (_ & Hr & Hp & Hne & _).
  rewrite (entry_bare e kwargs h Hcap Hoff).
  set (r := fresh (dom h)) in *.
  set (rec := record_object (cls_of e) (since_of kwargs) (caps_of kwargs)) in *.
  set (hr := <[r := rec]> h) in *.
  set (p := fresh (dom hr)) in *.
  set (h1 := <[p := Object (PPartial (action e) [VRef r]) ∅]> hr) in *.
  assert (r ≠ m) as Hrm by (by eapply unused_differs).
  assert (p ≠ m) as Hpm by (by eapply unused_differs).
  assert (hr !! m = Some o) as Hm0 by (by subst hr; rewrite lookup_insert_ne).
  assert (h1 !! m = Some o) as Hm1 by (by subst h1; rewrite lookup_insert_ne).
  assert (hr !! r = Some rec) as Hr0 by (subst hr; apply lookup_insert_eq).
  assert (h1 !! r = Some rec) as Hr1
    by (by subst h1; rewrite lookup_insert_ne).
  assert (∀ l, is_Some (h !! l) → hr !! l = h !! l ∧ h1 !! l = h !! l) as Hold.
  { intros l [ol Hl].
    assert (r ≠ l ∧ p ≠ l) as [? ?] by (split; by eapply unused_differs).
    subst h1 hr. by rewrite !lookup_insert_ne. }
  assert (partial_call (VRef p) [VRef m] h1
          = call (action e) [VRef r; VRef m] h1) as Hpc.
  { erewrite partial_call_spec by (subst h1; apply lookup_insert_eq). done. }
  destruct e; [| | |done]; simpl action in *.
  - rewrite (call_required_decorator _ _ _ _ Hm1) in Hpc.
    rewrite (call_required_decorator _ _ _ _ Hm0).
    exists r, p, m, m, h1. do 2 eexists. split; [exact Hconf|].
    split; [exact Hpc|]. split; [done|]. split; [by left|].
    split; [apply lookup_insert_eq|]. split; [apply lookup_insert_eq|].
    split; [by rewrite lookup_insert_ne|]. split; [by rewrite lookup_insert_ne|].
    intros l Hl Hlm. destruct (Hold l Hl). by rewrite !lookup_insert_ne.
  - pose proof (fresh_unused h1) as Hq1. pose proof (fresh_unused hr) as Hq0.
    assert (VRef m ≠ VRef (fresh (dom h1)) ∧ VRef m ≠ VRef (fresh (dom hr)))
      as [Hg1 Hg0] by (split; intros [= ->]; congruence).
    rewrite (call_RequiredProperty h1 _ _ Hg1) in Hpc.
    rewrite (call_RequiredProperty hr _ _ Hg0).
    exists r, p, (fresh (dom h1)), (fresh (dom hr)), h1. do 2 eexists.
    split; [exact Hconf|]. split; [exact Hpc|]. split; [done|].
    split.
    { right. split; [done|]. subst hr. by rewrite lookup_insert_None in Hq0. }
    assert (property_dict h1 "__isrequiredmethod__" (VRef r) (VRef m) VNone
            = property_dict h "__isrequiredmethod__" (VRef r) (VRef m) VNone
            ∧ property_dict hr "__isrequiredmethod__" (VRef r) (VRef m) VNone
              = property_dict h "__isrequiredmethod__" (VRef r) (VRef m) VNone)
      as [-> ->].
    { unfold property_dict. split; destruct (property.takes_getter_doc _ _);
        try done; f_equal; apply docstring_of_same_object; congruence. }
    split; [apply lookup_insert_eq|]. split; [apply lookup_insert_eq|].
    assert (fresh (dom h1) ≠ r ∧ fresh (dom hr) ≠ r) as [? ?]
      by (split; intros Heq; [rewrite Heq in Hq1 | rewrite Heq in Hq0]; congruence).
    split; [by rewrite lookup_insert_ne|]. split; [by rewrite lookup_insert_ne|].
    intros l Hl Hlm. destruct (Hold l Hl) as [Hl0 Hl1]. destruct Hl as [ol Hl].
    assert (fresh (dom h1) ≠ l ∧ fresh (dom hr) ≠ l) as [? ?]
      by (split; intros Heq; [rewrite Heq in Hq1 | rewrite Heq in Hq0]; congruence).
    by rewrite !lookup_insert_ne.
  - rewrite (call_provides_decorator _ _ _ _ Hm1) in Hpc.
    rewrite (call_provides_decorator _ _ _ _ Hm0).
    exists r, p, m, m, h1. do 2 eexists. split; [exact Hconf|].
    split; [exact Hpc|]. split; [done|]. split; [by left|].
    split; [apply lookup_insert_eq|]. split; [apply lookup_insert_eq|].
    split; [by rewrite lookup_insert_ne|]. split; [by rewrite lookup_insert_ne|].
    intros l Hl Hlm. destruct (Hold l Hl). by rewrite !lookup_insert_ne.
Qed.

(** C3, at [provides_property]: with valid options the call without
    positional argument does return a partial object that holds the record
    made from them, but applying it to a member raises [NameError], and so
    does the call with the member: neither form decorates anything. *)
Theorem C3_provides_property_never_decorates (m : value)
    (kwargs : gmap string value) (h : heap) :
  offending EP_provides_property kwargs = ∅ →
  ∃ (r p : loc) (h1 : heap),
    configured EP_provides_property kwargs h (since_of kwargs) VNone r p h1 ∧
    (partial_call (VRef p) [m] h1).1 = Raise (NameError "name 'req' is not defined") ∧
    (provides_property [m] kwargs h).1 = Raise (NameError "name 'req' is not defined").
Proof.
  intros Hoff.
  assert (cap_ok EP_provides_property kwargs) as Hcap.
  { intros Hin. simpl in Hin. by apply elem_of_singleton in Hin. }
  destruct (entry_configured_at _ _ h Hcap Hoff) as (r & p & Hconf).
  exists r, p. eexists. split; [exact Hconf|]. split.
  - erewrite partial_call_spec by apply lookup_insert_eq.
    simpl app. simpl action. by rewrite call_ProvidesProperty.
  - change (provides_property [m] kwargs h)
      with (entry EP_provides_property [m] kwargs h).
    rewrite (entry_bare _ _ h Hcap Hoff). simpl action.
    by rewrite call_ProvidesProperty.
Qed.

Lemma C3_provides_property_never_decorates_witness :
  ∃ (r p : loc) (h1 : heap),
    configured EP_provides_property {["since" := VInt 1]}
               {[ 1%positive := Object (PFunction VNone) ∅ ]}
               (since_of {["since" := VInt 1]}) VNone r p h1 ∧
    (partial_call (VRef p) [VRef 1%positive] h1).1
    = Raise (NameError "name 'req' is not defined") ∧
    (provides_property [VRef 1%positive] {["since" := VInt 1]}
                       {[ 1%positive := Object (PFunction VNone) ∅ ]}).1
    = Raise (NameError "name 'req' is not defined").
Proof.
  apply (C3_provides_property_never_decorates (VRef 1%positive)
           {["since" := VInt 1]} {[ 1%positive := Object (PFunction VNone) ∅ ]}).
  by vm_compute.
Defined.

(** ** Invalid arguments *)

Lemma sorted_keys_spec (d : gmap string value) :
  Sorted String.le (sorted_keys d) ∧ sorted_keys d ≡ₚ elements (dom d).
Proof.
  unfold sorted_keys. split.
  - apply (Sorted_merge_sort String.le).
  - apply merge_sort_Permutation.
Qed.

Lemma call_action_no_TypeError (e : entry_point) (inst m : value) (h : heap)
    (msg : string) :
  (call (action e) [inst; m] h).1 ≠ Raise (TypeError msg).
Proof.
  destruct e; simpl action.
  - unfold call, decorator_of_required, setattr. unfold_M.
    destruct m as [| | | | | |l]; try discriminate.
    by destruct (h !! l).
  - by destruct (call_RequiredProperty_ok h inst m) as (dict & -> & _).
  - unfold call, decorator_of_provides, setattr. unfold_M.
    destruct m as [| | | | | |l]; try discriminate.
    by destruct (h !! l).
  - by rewrite call_ProvidesProperty.
Qed.

(** C4, as the code has it. Where the [cap] option, if the decorator
    recognizes it, is false, a string or an iterable, a decorator raises
    [TypeError] in exactly two situations, and then before any object is
    made (the store is the one of the call): (1) options it does not
    recognize were given: the message lists them all, sorted, each in
    double quotes, separated by commas; (2) more than one positional
    argument was given: the message tells how many, unless the one of (1)
    applies. In every other call no [TypeError] is raised. *)
Theorem C4_invalid_argument (e : entry_point) (args : list value)
    (kwargs : gmap string value) (h : heap) :
  cap_ok e kwargs →
  (offending e kwargs ≠ ∅ →
     ∃ names, Sorted String.le names ∧ names ≡ₚ elements (offending e kwargs) ∧
       entry e args kwargs h
       = (Raise (TypeError (invalid_keyword_arguments names)), h)) ∧
  ((1 < length args)%nat →
     ∃ msg, entry e args kwargs h = (Raise (TypeError msg), h) ∧
       (offending e kwargs = ∅ →
        msg = invalid_positional_arguments (length args))) ∧
  (offending e kwargs = ∅ → (length args ≤ 1)%nat →
     ∀ msg, (entry e args kwargs h).1 ≠ Raise (TypeError msg)).
Proof.
  intros Hcap.
  assert (offending e kwargs ≠ ∅ →
          entry e args kwargs h
          = (Raise (TypeError (invalid_keyword_arguments
                                 (sorted_keys (leftover e kwargs)))), h)) as Hkw.
  { intros Hoff. by rewrite entry_unfold, something_left. }
  split; [|split].
  - intros Hoff. exists (sorted_keys (leftover e kwargs)).
    destruct (sorted_keys_spec (leftover e kwargs)) as [Hsorted Hperm].
    rewrite dom_leftover in Hperm. auto.
  - intros Hlen. destruct (decide (offending e kwargs = ∅)) as [Hoff|Hoff].
    + exists (invalid_positional_arguments (length args)). split; [|done].
      rewrite entry_unfold, nothing_left by done.
      by rewrite bool_decide_eq_true_2.
    + eexists. split; [by apply Hkw | done].
  - intros Hoff Hlen msg.
    destruct args as [|m [|m' args]]; [| |simpl in Hlen; lia].
    + by destruct (entry_configured e kwargs h Hcap Hoff) as [-> _].
    + rewrite entry_bare by done. apply call_action_no_TypeError.
Qed.

Lemma C4_invalid_argument_witness :
  ∃ names, Sorted String.le names ∧
    names ≡ₚ elements (offending EP_required {["cap" := VStr "x"; "zap" := VNone]}) ∧
    entry EP_required [] {["cap" := VStr "x"; "zap" := VNone]} ∅
    = (Raise (TypeError (invalid_keyword_arguments names)), ∅).
Proof.
  assert (cap_ok EP_required {["cap" := VStr "x"; "zap" := VNone]}) as Hcap.
  { intros _ v Hv _. vm_compute in Hv. by injection Hv as <-. }
  destruct (C4_invalid_argument EP_required []
              {["cap" := VStr "x"; "zap" := VNone]} ∅ Hcap) as [Hkw _].
  apply Hkw. intros Hoff. vm_compute in Hoff. discriminate.
Defined.

Example invalid_keyword_arguments_two :
  invalid_keyword_arguments ["cap"; "zap"]
  = "invalid keyword arguments "
      ++ dquote ++ "cap" ++ dquote ++ ", " ++ dquote ++ "zap" ++ dquote.
Proof. reflexivity. Qed.

Example provides_rejects_cap :
  provides [] {["zap" := VNone; "cap" := VStr "x"]} ∅
  = (Raise (TypeError (invalid_keyword_arguments ["cap"; "zap"])), ∅).
Proof. by vm_compute. Qed.

Example required_rejects_two_members :
  required [VRef 1%positive; VRef 2%positive] ∅ ∅
  = (Raise (TypeError
       "invalid positional arguments; expecting at most 1, got 2 arguments"), ∅).
Proof. by vm_compute. Qed.

(** C4, as stated, fails: [required(cap=5, bogus=1)] is given an option
    [required] does not recognize, yet the error raised is the one of the
    set conversion of [5], which comes first, and its message lists no
    option. *)
Lemma C4_counterexample :
  offending EP_required {["cap" := VInt 5; "bogus" := VInt 1]} = {["bogus"]} ∧
  entry EP_required [] {["cap" := VInt 5; "bogus" := VInt 1]} ∅
  = (Raise (TypeError "'int' object is not iterable"), ∅) ∧
  ¬ ∃ names,
      entry EP_required [] {["cap" := VInt 5; "bogus" := VInt 1]} ∅
      = (Raise (TypeError (invalid_keyword_arguments names)), ∅).
Proof.
  assert (entry EP_required [] {["cap" := VInt 5; "bogus" := VInt 1]} ∅
          = (Raise (TypeError "'int' object is not iterable"), ∅)) as Hrun
    by (by vm_compute).
  split; [by vm_compute|]. split; [exact Hrun|].
  intros [names Hnames]. rewrite Hrun in Hnames.
  injection Hnames as Hmsg. unfold invalid_keyword_arguments in Hmsg.
  cbv [String.append] in Hmsg. discriminate.
Qed.

(** ** The defect of ProvidesProperty, seen from the decorators *)

(** C10, at [provides_property(m, since=2)]: the call passes the checks of
    the arguments, makes the [Provides] record, and the decoration raises
    [NameError]: nothing is decorated. *)
Theorem C10_provides_property_with_member_raises (h : heap) (m : value) :
  provides_property [m] {["since" := VInt 2]} h
  = (Raise (NameError "name 'req' is not defined"),
     let hr := <[fresh (dom h) := record_object CProvides (VInt 2) VNone]> h in
     <[fresh (dom hr) :=
         Object (PProperty CProvidesProperty VNone VNone VNone VNone) ∅]> hr).
Proof.
  assert (cap_ok EP_provides_property {["since" := VInt 2]}) as Hcap.
  { intros Hin. vm_compute in Hin. discriminate. }
  assert (offending EP_provides_property {["since" := VInt 2]} = ∅) as Hoff
    by (by vm_compute).
  change (provides_property [m] {["since" := VInt 2]} h)
    with (entry EP_provides_property [m] {["since" := VInt 2]} h).
  rewrite (entry_bare _ _ h Hcap Hoff). simpl action.
  by rewrite call_ProvidesProperty.
Qed.

(** C9, at [provides_property(since=1)]: the record is made once and the
    partial object returned holds it, but applying that object to a member
    raises [NameError]: the record is attached to nothing. *)
Theorem C9_provides_property_deferred_raises (h : heap) (m : value) :
  ∃ (r p : loc) (h1 : heap),
    configured EP_provides_property {["since" := VInt 1]} h (VInt 1) VNone r p h1 ∧
    partial_call (VRef p) [m] h1
    = (Raise (NameError "name 'req' is not defined"),
       <[fresh (dom h1) :=
           Object (PProperty CProvidesProperty VNone VNone VNone VNone) ∅]> h1).
Proof.
  assert (cap_ok EP_provides_property {["since" := VInt 1]}) as Hcap.
  { intros Hin. vm_compute in Hin. discriminate. }
  assert (offending EP_provides_property {["since" := VInt 1]} = ∅) as Hoff
    by (by vm_compute).
  destruct (entry_configured_at _ _ h Hcap Hoff) as (r & p & Hconf).
  change (since_of {["since" := VInt 1]}) with (VInt 1) in Hconf.
  change (caps_of {["since" := VInt 1]}) with VNone in Hconf.
  exists r, p. eexists. split; [exact Hconf|].
  erewrite partial_call_spec by apply lookup_insert_eq.
  simpl app. simpl action. by rewrite call_ProvidesProperty.
Qed.

(** ** The other three decorators *)

(** What [provides_property] misses, its three siblings do. *)

Lemma call_action_decorates (e : entry_point) (h : heap) (r m : loc) (o : object) :
  e ≠ EP_provides_property →
  h !! m = Some o →
  ∃ (a : loc) (oa : object),
    call (action e) [VRef r; VRef m] h = (Ok (VRef a), <[a := oa]> h) ∧
    o_dict oa !! metadata_attribute e = Some (VRef r) ∧
    (∀ c, o_payload oa = PInstance c → o_payload o = PInstance c ∧ a = m) ∧
    (a = m ∨ h !! a = None).
Proof.
  intros He Hm. destruct e; [| | |done]; simpl action.
  - eexists m, _. rewrite (call_required_decorator _ _ _ _ Hm).
    split; [done|]. split; [apply lookup_insert_eq|]. split; [|by left]. done.
  - destruct (call_RequiredProperty_ok h (VRef r) (VRef m)) as (dict & -> & Hdict).
    eexists _, _. split; [done|]. split; [exact Hdict|].
    split; [done|]. right. apply fresh_unused.
  - eexists m, _. rewrite (call_provides_decorator _ _ _ _ Hm).
    split; [done|]. split; [apply lookup_insert_eq|]. split; [|by left]. done.
Qed.

(** With a member and options, each of the three decorates at once: the
    result carries a record made from the options. *)
Lemma bare_with_options_decorates (e : entry_point) (m : loc) (o : object)
    (kwargs : gmap string value) (h : heap) :
  e ≠ EP_provides_property →
  h !! m = Some o →
  cap_ok e kwargs →
  offending e kwargs = ∅ →
  ∃ (a r : loc) (h' : heap),
    entry e [VRef m] kwargs h = (Ok (VRef a), h') ∧
    carried e h' a = Some (VRef r) ∧
    h !! r = None ∧
    h' !! r = Some (record_object (cls_of e) (since_of kwargs) (caps_of kwargs)).
Proof.
  intros He Hm Hcap Hoff. rewrite entry_bare by done.
  set (r := fresh (dom h)).
  set (rec := record_object (cls_of e) (since_of kwargs) (caps_of kwargs)).
  assert (h !! r = None) as Hr by apply fresh_unused.
  assert (r ≠ m) as Hrm by (by eapply unused_differs).
  assert (<[r := rec]> h !! m = Some o) as Hm' by (by rewrite lookup_insert_ne).
  destruct (call_action_decorates e _ r m o He Hm')
    as (a & oa & -> & Hattr & _ & Ha).
  exists a, r. eexists. split; [done|].
  split; [unfold carried; by rewrite lookup_insert_eq|].
  split; [done|].
  assert (a ≠ r) as Har.
  { destruct Ha as [->|Ha]; [done|]. intros ->. by rewrite lookup_insert_eq in Ha. }
  rewrite lookup_insert_ne by done. apply lookup_insert_eq.
Qed.

(** The partial object a configured call returns hands the one record it
    holds to every member it is applied to, and no other record is made. *)
Lemma deferred_shares_record (e : entry_point) (m1 m2 : loc) (o1 o2 : object)
    (kwargs : gmap string value) (h : heap) :
  e ≠ EP_provides_property →
  h !! m1 = Some o1 → h !! m2 = Some o2 → m1 ≠ m2 →
  cap_ok e kwargs →
  offending e kwargs = ∅ →
  ∃ (r p a1 a2 : loc) (h1 h2 h3 : heap),
    configured e kwargs h (since_of kwargs) (caps_of kwargs) r p h1 ∧
    partial_call (VRef p) [VRef m1] h1 = (Ok (VRef a1), h2) ∧
    partial_call (VRef p) [VRef m2] h2 = (Ok (VRef a2), h3) ∧
    a1 ≠ a2 ∧
    carried e h3 a1 = Some (VRef r) ∧
    carried e h3 a2 = Some (VRef r) ∧
    (∀ l ol c, h3 !! l = Some ol → o_payload ol = PInstance c →
               l = r ∨ ∃ o, h !! l = Some o ∧ o_payload o = PInstance c).
Proof.
  intros He Hm1 Hm2 Hm12 Hcap Hoff.
  destruct (entry_configured_at e kwargs h Hcap Hoff) as (r & p & Hconf).
  pose proof Hconf as (_ & Hr & Hp & Hrp & _).
  set (rec := record_object (cls_of e) (since_of kwargs) (caps_of kwargs)) in *.
  set (part := Object (PPartial (action e) [VRef r]) ∅) in *.
  set (h1 := <[p := part]> (<[r := rec]> h)) in *.
  assert (r ≠ m1 ∧ r ≠ m2 ∧ p ≠ m1 ∧ p ≠ m2) as (? & ? & ? & ?)
    by (repeat split; by eapply unused_differs).
  assert (h1 !! m1 = Some o1) as Hm1' by (by subst h1; rewrite !lookup_insert_ne).
  destruct (call_action_decorates e h1 r m1 o1 He Hm1')
    as (a1 & oa1 & Hcall1 & Hattr1 & Hrec1 & Ha1).
  set (h2 := <[a1 := oa1]> h1) in *.
  assert (a1 ≠ p ∧ a1 ≠ r ∧ a1 ≠ m2) as (? & ? & ?).
  { destruct Ha1 as [->|Ha1]; [done|].
    subst h1. repeat split; intros ->; by simplify_map_eq. }
  assert (h2 !! m2 = Some o2) as Hm2'
    by (by subst h2 h1; rewrite !lookup_insert_ne).
  destruct (call_action_decorates e h2 r m2 o2 He Hm2')
    as (a2 & oa2 & Hcall2 & Hattr2 & Hrec2 & Ha2).
  assert (a2 ≠ a1) as Ha21.
  { destruct Ha2 as [->|Ha2]; [done|]. intros ->. subst h2.
    by rewrite lookup_insert_eq in Ha2. }
  exists r, p, a1, a2, h1, h2. eexists.
  split; [exact Hconf|].
  split.
  { erewrite partial_call_spec by (subst h1; apply lookup_insert_eq).
    exact Hcall1. }
  split.
  { erewrite partial_call_spec
      by (subst h2 h1; rewrite lookup_insert_ne by done; apply lookup_insert_eq).
    exact Hcall2. }
  split; [done|].
  split.
  { unfold carried. rewrite lookup_insert_ne by done.
    subst h2. by rewrite lookup_insert_eq. }
  split.
  { unfold carried. by rewrite lookup_insert_eq. }
  intros l ol c Hl Hpay.
  destruct (decide (l = a2)) as [->|Hl2].
  { rewrite lookup_insert_eq in Hl. injection Hl as <-.
    destruct (Hrec2 c Hpay) as [? ->]. right. eauto. }
  rewrite lookup_insert_ne in Hl by done.
  destruct (decide (l = a1)) as [->|Hl1].
  { subst h2. rewrite lookup_insert_eq in Hl. injection Hl as <-.
    destruct (Hrec1 c Hpay) as [? ->]. right. eauto. }
  subst h2 h1. rewrite lookup_insert_ne in Hl by done.
  destruct (decide (l = p)) as [->|Hlp].
  { rewrite lookup_insert_eq in Hl. injection Hl as <-. done. }
  rewrite lookup_insert_ne in Hl by done.
  destruct (decide (l = r)) as [->|Hlr]; [by left|].
  rewrite lookup_insert_ne in Hl by done. right. eauto.
Qed.

(** * Further properties of the module *)

(** ** Required.required *)

Lemma getattr_store (obj : value) (name : string) (h h' : heap) (r : result value) :
  getattr obj name h = (r, h') → h' = h.
Proof.
  unfold getattr. destruct obj as [| | | | | |l]; try by intros [= _ <-].
  destruct (h !! l ≫= λ o, o_dict o !! name); by intros [= _ <-].
Qed.

(** X1. [Required.required] only reads: whatever [self], the version and
    the capabilities are, and whether it returns or raises, the store
    after the call is the store before it. *)
Theorem required_reads_only (self version caps : value) (h : heap) :
  (Required.required self version caps h).2 = h.
Proof.
  unfold Required.required. unfold_M.
  destruct (getattr self "since" h) as [[since|e] h1] eqn:H1;
    apply getattr_store in H1 as ->; [|reflexivity].
  destruct (py_ge version since) as [ge|]; [|reflexivity].
  destruct (negb (truthy ge)); [reflexivity|].
  destruct (getattr self "caps" h) as [[self_caps|e] h2] eqn:H2;
    apply getattr_store in H2 as ->; [|reflexivity].
  destruct (bool_decide (self_caps = VNone)); [reflexivity|].
  by destruct (py_and self_caps caps).
Qed.

(** X2. The version gate is monotone for every record: a member required
    at version [v] stays required at every later version, whatever the
    record's [caps] and the capabilities given. *)
Theorem required_monotone_in_version (h : heap) (r : loc) (since v v' : Z)
    (caps c : value) :
  is_Required h r (VInt since) caps →
  (v ≤ v')%Z →
  Required.required (VRef r) (VInt v) c h = (Ok (VBool true), h) →
  Required.required (VRef r) (VInt v') c h = (Ok (VBool true), h).
Proof.
  intros (o & Ho & _ & Hsince & Hcaps) Hle.
  unfold Required.required. unfold_M.
  rewrite !(getattr_spec _ _ _ _ _ Ho Hsince). simpl.
  destruct (since <=? v)%Z eqn:Hv; simpl; [|discriminate].
  apply Z.leb_le in Hv.
  rewrite (proj2 (Z.leb_le since v')) by lia. simpl. done.
Qed.

Lemma required_monotone_in_version_witness :
  Required.required (VRef 1%positive) (VInt 9) (VSet false {[AStr "b"]})
    {[ 1%positive := record_object CRequired (VInt 5) (VSet true {[AStr "b"]}) ]}
  = (Ok (VBool true),
     {[ 1%positive := record_object CRequired (VInt 5) (VSet true {[AStr "b"]}) ]}).
Proof.
  apply (required_monotone_in_version _ 1%positive 5 5 9
           (VSet true {[AStr "b"]})).
  - exists (record_object CRequired (VInt 5) (VSet true {[AStr "b"]})).
    repeat split; reflexivity.
  - lia.
  - by vm_compute.
Defined.

(** X3. Requirements grow with the capabilities: a member required for a
    capability set is required for every larger one. *)
Theorem required_monotone_in_caps (h : heap) (r : loc) (since version : Z)
    (fr f f' : bool) (caps : option (gset atom)) (c c' : gset atom) :
  is_Required h r (VInt since) (set_or_none fr caps) →
  c ⊆ c' →
  Required.required (VRef r) (VInt version) (VSet f c) h = (Ok (VBool true), h) →
  Required.required (VRef r) (VInt version) (VSet f' c') h = (Ok (VBool true), h).
Proof.
  intros Hr Hsub Hreq.
  destruct (Z_lt_le_dec version since) as [Hlt|Hle].
  { rewrite (required_too_old _ _ since version _ _ Hr Hlt) in Hreq.
    discriminate. }
  destruct caps as [s|]; simpl in Hr.
  - rewrite (required_gated _ _ since version fr f s c Hr Hle) in Hreq.
    rewrite (required_gated _ _ since version fr f' s c' Hr Hle).
    injection Hreq as Hreq. apply negb_true_iff, bool_decide_eq_false in Hreq.
    do 3 f_equal. apply negb_true_iff, bool_decide_eq_false.
    intros Hempty. apply Hreq.
    apply set_eq. intros x. rewrite elem_of_intersection.
    split; [|by intros ?%not_elem_of_empty].
    intros [Hs Hc]. rewrite <- Hempty. apply elem_of_intersection. auto.
  - by apply (required_unconditional _ _ since version).
Qed.

Lemma required_monotone_in_caps_witness :
  Required.required (VRef 1%positive) (VInt 5)
    (VSet false {[AStr "a"; AStr "b"]})
    {[ 1%positive := record_object CRequired (VInt 5) (VSet true {[AStr "b"]}) ]}
  = (Ok (VBool true),
     {[ 1%positive := record_object CRequired (VInt 5) (VSet true {[AStr "b"]}) ]}).
Proof.
  apply (required_monotone_in_caps _ 1%positive 5 5 true false false
           (Some {[AStr "b"]}) {[AStr "b"]} {[AStr "a"; AStr "b"]}).
  - exists (record_object CRequired (VInt 5) (VSet true {[AStr "b"]})).
    repeat split; reflexivity.
  - apply (bool_decide_unpack _). by vm_compute.
  - by vm_compute.
Defined.

(** X4. Below the version gate the answer is [False] and nothing else is
    looked at: the object needs no [caps] attribute, and the capabilities
    given may be any value. *)
Theorem required_below_gate (h : heap) (r : loc) (o : object)
    (since version : Z) (c : value) :
  h !! r = Some o →
  o_dict o !! "since" = Some (VInt since) →
  (version < since)%Z →
  Required.required (VRef r) (VInt version) c h = (Ok (VBool false), h).
Proof.
  intros Ho Hsince Hlt.
  unfold Required.required. unfold_M.
  rewrite (getattr_spec _ _ _ _ _ Ho Hsince). simpl.
  by rewrite (proj2 (Z.leb_gt since version) Hlt).
Qed.

Lemma required_below_gate_witness :
  Required.required (VRef 1%positive) (VInt 2) VNone
    {[ 1%positive := Object (PFunction VNone) {["since" := VInt 3]} ]}
  = (Ok (VBool false), {[ 1%positive := Object (PFunction VNone) {["since" := VInt 3]} ]}).
Proof.
  apply (required_below_gate _ 1%positive (Object (PFunction VNone) {["since" := VInt 3]}) 3 2).
  - reflexivity.
  - reflexivity.
  - lia.
Defined.

(** X5. The capabilities must be given as a set: once the version gate is
    passed, a record gated on a set of capabilities raises [TypeError] for
    any argument that is not a set (a list of names, a string, [None]),
    and the store is left as it was. *)
Theorem required_needs_a_set (h : heap) (r : loc) (since version : Z)
    (fr : bool) (s : gset atom) (c : value) :
  is_Required h r (VInt since) (VSet fr s) →
  (since ≤ version)%Z →
  (∀ f c', c ≠ VSet f c') →
  ∃ msg, Required.required (VRef r) (VInt version) c h = (Raise (TypeError msg), h).
Proof.
  intros (o & Ho & _ & Hsince & Hcaps) Hle Hc.
  unfold Required.required. unfold_M.
  rewrite (getattr_spec _ _ _ _ _ Ho Hsince). simpl.
  rewrite (proj2 (Z.leb_le since version) Hle). simpl.
  rewrite (getattr_spec _ _ _ _ _ Ho Hcaps). simpl.
  destruct c; try (eexists; reflexivity).
  by destruct (Hc frozen s0).
Qed.

Lemma required_needs_a_set_witness :
  ∃ msg,
    Required.required (VRef 1%positive) (VInt 5) (VList [AStr "b"])
      {[ 1%positive := record_object CRequired (VInt 5) (VSet true {[AStr "b"]}) ]}
    = (Raise (TypeError msg),
       {[ 1%positive := record_object CRequired (VInt 5) (VSet true {[AStr "b"]}) ]}).
Proof.
  apply (required_needs_a_set _ 1%positive 5 5 true {[AStr "b"]}).
  - exists (record_object CRequired (VInt 5) (VSet true {[AStr "b"]})).
    repeat split; reflexivity.
  - lia.
  - intros f c'. discriminate.
Defined.

(** ** _helper with any key set *)

Lemma normalized_cap_caps_of (kwargs : gmap string value) :
  normalized_cap (default VNone (kwargs !! "cap")) = caps_of kwargs.
Proof. unfold caps_of. by destruct (kwargs !! "cap") as [[]|]. Qed.

(** The capability step on a well-formed option. *)
Lemma cap_step_ok (v : value) (cls_args kwargs : gmap string value) (h : heap) :
  (truthy v = true → iterable v = true) →
  (if truthy v then
     caps' ← lift (match v with
                   | VStr s => frozenset (VList [AStr s])
                   | _ => frozenset v
                   end);
     mret (<["caps" := caps']> cls_args, kwargs)
   else mret (<["caps" := VNone]> cls_args, kwargs)) h
  = (Ok (<["caps" := normalized_cap v]> cls_args, kwargs), h).
Proof.
  intros Hv. destruct (truthy v) eqn:Ht.
  - specialize (Hv eq_refl). destruct v; try discriminate;
      simpl in Ht; apply negb_true_iff in Ht; simpl normalized_cap; rewrite Ht;
      rewrite ?frozenset_singleton; reflexivity.
  - destruct v; try reflexivity;
      simpl in Ht; apply negb_false_iff in Ht; simpl normalized_cap; by rewrite Ht.
Qed.

(** The capability step on a true value that is not iterable. *)
Lemma cap_step_bad (v : value) (cls_args kwargs : gmap string value) (h : heap) :
  truthy v = true → iterable v = false →
  (if truthy v then
     caps' ← lift (match v with
                   | VStr s => frozenset (VList [AStr s])
                   | _ => frozenset v
                   end);
     mret (<["caps" := caps']> cls_args, kwargs)
   else mret (<["caps" := VNone]> cls_args, kwargs)) h
  = (Raise (TypeError ("'" ++ type_name v ++ "' object is not iterable")), h).
Proof. intros -> Hi. by destruct v. Qed.

Lemma lookup_cap_without_since (b : bool) (kwargs : gmap string value) :
  (if b then delete "since" kwargs else kwargs) !! "cap" = kwargs !! "cap".
Proof. destruct b; [by rewrite lookup_delete_ne | done]. Qed.

Lemma helper_unfold (args : list value) (kwargs : gmap string value)
    (d : callable) (keys : gset string) (cls : record_class) (h : heap) :
  cap_value_ok keys kwargs →
  _helper args kwargs d keys cls h =
  if bool_decide (unconsumed keys kwargs ≠ ∅) then
    (Raise (TypeError (invalid_keyword_arguments
                         (sorted_keys (unconsumed keys kwargs)))), h)
  else if bool_decide (1 < length args)%nat then
    (Raise (TypeError (invalid_positional_arguments (length args))), h)
  else
    (inst ← instantiate cls (consumed keys kwargs);
     match args with
     | func :: _ => call d [inst; func]
     | [] => partial d [inst]
     end) h.
Proof.
  intros Hcap. unfold _helper, pop, consumed, unconsumed, cap_value_ok in *.
  destruct (bool_decide ("cap" ∈ keys)) eqn:Hc.
  - apply bool_decide_eq_true in Hc. specialize (Hcap Hc).
    destruct (bool_decide ("since" ∈ keys));
      unfold mbind at 1, M_bind at 1;
      rewrite ?lookup_delete_ne by done;
      (rewrite cap_step_ok;
       [ unfold since_of; helper_cases
       | destruct (kwargs !! "cap") as [v|]; [by apply Hcap | done] ]).
  - destruct (bool_decide ("since" ∈ keys)); unfold since_of; helper_cases.
Qed.

Lemma helper_bad_cap (args : list value) (kwargs : gmap string value)
    (d : callable) (keys : gset string) (cls : record_class) (h : heap) (v : value) :
  "cap" ∈ keys →
  kwargs !! "cap" = Some v → truthy v = true → iterable v = false →
  _helper args kwargs d keys cls h
  = (Raise (TypeError ("'" ++ type_name v ++ "' object is not iterable")), h).
Proof.
  intros Hc Hv Ht Hi. unfold _helper, pop.
  rewrite (bool_decide_eq_true_2 _ Hc).
  destruct (bool_decide ("since" ∈ keys));
    unfold mbind at 1, M_bind at 1;
    rewrite ?lookup_delete_ne by done; rewrite Hv; simpl default;
    by rewrite cap_step_bad.
Qed.

Lemma not_invalid_argument_message (v : value) :
  (∀ names, "'" ++ type_name v ++ "' object is not iterable"
            ≠ invalid_keyword_arguments names) ∧
  (∀ n, "'" ++ type_name v ++ "' object is not iterable"
        ≠ invalid_positional_arguments n).
Proof.
  split; intros x Heq;
    unfold invalid_keyword_arguments, invalid_positional_arguments in Heq;
    cbv [String.append] in Heq; discriminate.
Qed.

(** X6. [cap] is converted before anything is checked: where a decorator
    recognizes [cap], a true value that is not iterable (a number, [True],
    an object) makes the call raise the [TypeError] of the conversion, with
    the store untouched, whatever the positional arguments and the other
    options are; the message is neither of the two [_helper] has. *)
Theorem cap_not_iterable_raises (e : entry_point) (args : list value)
    (kwargs : gmap string value) (h : heap) (v : value) :
  "cap" ∈ recognized e →
  kwargs !! "cap" = Some v → truthy v = true → iterable v = false →
  ∃ msg,
    entry e args kwargs h = (Raise (TypeError msg), h) ∧
    (∀ names, msg ≠ invalid_keyword_arguments names) ∧
    (∀ n, msg ≠ invalid_positional_arguments n).
Proof.
  intros Hc Hv Ht Hi.
  exists ("'" ++ type_name v ++ "' object is not iterable").
  split; [|apply not_invalid_argument_message].
  destruct e; simpl in Hc;
    apply (helper_bad_cap _ _ _ _ _ _ v); done.
Qed.

Lemma cap_not_iterable_raises_witness :
  ∃ msg,
    entry EP_required_property [VNone; VNone]
          {["cap" := VInt 5; "bogus" := VInt 1]} ∅
    = (Raise (TypeError msg), ∅) ∧
    (∀ names, msg ≠ invalid_keyword_arguments names) ∧
    (∀ n, msg ≠ invalid_positional_arguments n).
Proof.
  apply (cap_not_iterable_raises EP_required_property _ _ ∅ (VInt 5)).
  - apply (bool_decide_unpack _). by vm_compute.
  - reflexivity.
  - reflexivity.
  - reflexivity.
Defined.

(** X7. The key set handed to [_helper] matters for [since] and [cap]
    only: any other keyword is rejected, also when [keys] names it, and
    the message lists it. *)
Theorem helper_rejects_other_keywords (args : list value)
    (kwargs : gmap string value) (d : callable) (keys : gset string)
    (cls : record_class) (h : heap) (k : string) :
  is_Some (kwargs !! k) → k ≠ "since" → k ≠ "cap" →
  cap_value_ok keys kwargs →
  ∃ names, k ∈ names ∧
    _helper args kwargs d keys cls h
    = (Raise (TypeError (invalid_keyword_arguments names)), h).
Proof.
  intros Hk Hs Hc Hcap.
  assert (is_Some (unconsumed keys kwargs !! k)) as Hleft.
  { unfold unconsumed.
    destruct (bool_decide ("cap" ∈ keys)), (bool_decide ("since" ∈ keys));
      by rewrite ?lookup_delete_ne. }
  exists (sorted_keys (unconsumed keys kwargs)). split.
  - destruct (sorted_keys_spec (unconsumed keys kwargs)) as [_ Hperm].
    rewrite Hperm. by apply elem_of_elements, elem_of_dom.
  - rewrite helper_unfold by done.
    rewrite bool_decide_eq_true_2; [done|].
    intros Hempty. rewrite Hempty, lookup_empty in Hleft. by destruct Hleft.
Qed.

Lemma helper_rejects_other_keywords_witness :
  ∃ names, "until" ∈ names ∧
    _helper [] {["until" := VInt 3]} provides_decorator {["since"; "until"]}
            CProvides ∅
    = (Raise (TypeError (invalid_keyword_arguments names)), ∅).
Proof.
  apply (helper_rejects_other_keywords [] {["until" := VInt 3]}
           provides_decorator {["since"; "until"]} CProvides ∅ "until").
  - by exists (VInt 3).
  - discriminate.
  - discriminate.
  - intros _ v Hv. vm_compute in Hv. discriminate.
Defined.

(** X8. [provides] and [provides_property] take no [cap]: whatever value
    it is given, also one [required] could not convert, the call raises the
    invalid-keyword [TypeError], whose message lists [cap], and nothing is
    made. *)
Theorem provides_family_rejects_cap (e : entry_point) (args : list value)
    (kwargs : gmap string value) (h : heap) :
  e = EP_provides ∨ e = EP_provides_property →
  is_Some (kwargs !! "cap") →
  ∃ names, "cap" ∈ names ∧
    entry e args kwargs h
    = (Raise (TypeError (invalid_keyword_arguments names)), h).
Proof.
  intros He Hcap.
  assert ("cap" ∉ recognized e) as Hnot.
  { destruct He as [-> | ->]; simpl; by intros ?%elem_of_singleton. }
  assert (cap_ok e kwargs) as Hok by (by intros ?).
  assert ("cap" ∈ offending e kwargs) as Hoff.
  { unfold offending. rewrite elem_of_difference.
    split; [by apply elem_of_dom | done]. }
  exists (sorted_keys (leftover e kwargs)). split.
  - destruct (sorted_keys_spec (leftover e kwargs)) as [_ Hperm].
    rewrite Hperm, dom_leftover. by apply elem_of_elements.
  - rewrite entry_unfold, something_left; [done | | done].
    intros Hempty. rewrite Hempty in Hoff. by apply not_elem_of_empty in Hoff.
Qed.

Lemma provides_family_rejects_cap_witness :
  ∃ names, "cap" ∈ names ∧
    entry EP_provides [VRef 1%positive] {["cap" := VInt 5]}
          {[ 1%positive := Object (PFunction VNone) ∅ ]}
    = (Raise (TypeError (invalid_keyword_arguments names)),
       {[ 1%positive := Object (PFunction VNone) ∅ ]}).
Proof.
  apply (provides_family_rejects_cap EP_provides).
  - by left.
  - by exists (VInt 5).
Defined.

(** ** What a decoration leaves alone *)

Lemma call_frame (f : callable) (args : list value) (h : heap) (l : loc) (o : object) :
  h !! l = Some o →
  args !! 1%nat ≠ Some (VRef l) →
  (call f args h).2 !! l = Some o.
Proof.
  intros Hl Hm.
  assert (fresh (dom h) ≠ l) as Hfresh
    by (apply (unused_differs h _ _ o (fresh_unused h) Hl)).
  destruct f as [| |c]; unfold call.
  - destruct args as [|req [|func [|? ?]]]; try done.
    unfold decorator_of_required, setattr. unfold_M.
    destruct func as [| | | | | |m]; try done.
    destruct (h !! m) eqn:Hmm; [|done]. simpl.
    rewrite lookup_insert_ne; [done|]. intros ->. by apply Hm.
  - destruct args as [|req [|func [|? ?]]]; try done.
    unfold decorator_of_provides, setattr. unfold_M.
    destruct func as [| | | | | |m]; try done.
    destruct (h !! m) eqn:Hmm; [|done]. simpl.
    rewrite lookup_insert_ne; [done|]. intros ->. by apply Hm.
  - destruct args as [|first rest]; [done|].
    destruct (bool_decide (length rest ≤ 4)%nat); [|done].
    destruct c.
    + destruct (RequiredProperty_new_ok first (optional rest 0) (optional rest 1)
                  (optional rest 2) (optional rest 3) h) as (dict & -> & _).
      simpl. by rewrite lookup_insert_ne.
    + rewrite ProvidesProperty_new_spec. simpl. by rewrite lookup_insert_ne.
Qed.

Lemma instantiate_frame (cls : record_class) (cls_args : gmap string value)
    (h : heap) (l : loc) (o : object) :
  h !! l = Some o →
  (instantiate cls cls_args h).2 !! l = Some o.
Proof.
  intros Hl.
  assert (fresh (dom h) ≠ l) as Hfresh
    by (apply (unused_differs h _ _ o (fresh_unused h) Hl)).
  unfold instantiate. destruct cls.
  - destruct (bool_decide _); [|done].
    destruct (cls_args !! "since"), (cls_args !! "caps"); try done.
    rewrite Required_new_spec. simpl. by rewrite lookup_insert_ne.
  - destruct (bool_decide _); [|done].
    destruct (cls_args !! "since"); [|done].
    rewrite Provides_new_spec. simpl. by rewrite lookup_insert_ne.
Qed.

(** The store part of [_helper], for the decoration actions and the
    classes of this module: no object other than the member is changed. *)
Lemma helper_store_frame (args : list value) (kwargs : gmap string value)
    (d : callable) (keys : gset string) (cls : record_class)
    (h : heap) (l : loc) (o : object) :
  h !! l = Some o →
  args !! 0%nat ≠ Some (VRef l) →
  (_helper args kwargs d keys cls h).2 !! l = Some o.
Proof.
  intros Hl Hm.
  destruct (decide ("cap" ∈ keys)) as [Hc|Hc];
    [destruct (kwargs !! "cap") as [v|] eqn:Hv;
     [destruct (truthy v) eqn:Ht; [destruct (iterable v) eqn:Hi|]|]|].
  2: by rewrite (helper_bad_cap _ _ _ _ _ _ v).
  all: rewrite helper_unfold
    by (intros ? v' Hv'; try congruence; try done; rewrite Hv in Hv'; congruence).
  all: destruct (bool_decide (unconsumed keys kwargs ≠ ∅)); [done|];
    destruct (bool_decide (1 < length args)%nat); [done|];
    unfold mbind, M_bind;
    pose proof (instantiate_frame cls (consumed keys kwargs) h l o Hl) as Hi';
    destruct (instantiate cls (consumed keys kwargs) h) as [[inst|?] hr];
    [|done]; simpl in Hi';
    (destruct args as [|func args];
     [ unfold partial; rewrite alloc_spec; simpl;
       rewrite lookup_insert_ne; [done|];
       apply (unused_differs hr _ _ o (fresh_unused hr) Hi')
     | apply call_frame; [done|]; simpl in *; congruence ]).
Qed.

(** X9. Each of the four decorators changes no object but the member it
    is given: for any positional arguments and keyword options, and
    whether the call returns or raises, every object of the store other
    than the member (the first positional argument) is afterwards what it
    was. In particular a decoration never modifies a metadata record made
    by another one. *)
Theorem decorators_frame (e : entry_point) (args : list value)
    (kwargs : gmap string value) (h : heap) (l : loc) (o : object) :
  h !! l = Some o →
  args !! 0%nat ≠ Some (VRef l) →
  (entry e args kwargs h).2 !! l = Some o.
Proof.
  intros Hl Hm. destruct e; simpl entry;
    unfold required, required_property, provides, provides_property;
    by apply helper_store_frame.
Qed.

Lemma decorators_frame_witness :
  (entry EP_required [VRef 1%positive] {["since" := VInt 2]}
         {[ 1%positive := Object (PFunction VNone) ∅;
            2%positive := record_object CProvides (VInt 1) VNone ]}).2
    !! 2%positive
  = Some (record_object CProvides (VInt 1) VNone).
Proof.
  apply (decorators_frame EP_required [VRef 1%positive] {["since" := VInt 2]}
           _ 2%positive).
  - reflexivity.
  - discriminate.
Defined.

(** X10. The deferred decorator changes no object but the member it is
    applied to: every other object of the store, the record it holds
    included, is afterwards what it was, whether the application returns
    or raises. *)
Theorem deferred_frame (q : loc) (f : callable) (inst : value)
    (dq : gmap string value) (args : list value) (h : heap) (l : loc) (o : object) :
  h !! q = Some (Object (PPartial f [inst]) dq) →
  h !! l = Some o →
  args !! 0%nat ≠ Some (VRef l) →
  (partial_call (VRef q) args h).2 !! l = Some o.
Proof.
  intros Hq Hl Hm. rewrite (partial_call_spec _ _ _ _ _ _ Hq).
  by apply call_frame.
Qed.

Lemma deferred_frame_witness :
  (partial_call (VRef 3%positive) [VRef 1%positive]
     {[ 1%positive := Object (PFunction VNone) ∅;
        2%positive := record_object CProvides (VInt 1) VNone;
        3%positive := Object (PPartial provides_decorator [VRef 2%positive]) ∅ ]}).2
    !! 2%positive
  = Some (record_object CProvides (VInt 1) VNone).
Proof.
  apply (deferred_frame 3%positive provides_decorator (VRef 2%positive) ∅
           [VRef 1%positive] _ 2%positive).
  - reflexivity.
  - reflexivity.
  - discriminate.
Defined.

(** ** What each decorator does to a member *)

Lemma plain_bare (e : entry_point) (m : loc) (o : object)
    (kwargs : gmap string value) (h : heap) :
  e = EP_required ∨ e = EP_provides →
  h !! m = Some o →
  cap_ok e kwargs →
  offending e kwargs = ∅ →
  entry e [VRef m] kwargs h
  = (Ok (VRef m),
     <[m := Object (o_payload o)
              (<[metadata_attribute e := VRef (fresh (dom h))]> (o_dict o))]>
       (<[fresh (dom h) :=
            record_object (cls_of e) (since_of kwargs) (caps_of kwargs)]> h)).
Proof.
  intros He Hm Hcap Hoff. rewrite entry_bare by done.
  assert (fresh (dom h) ≠ m) as Hrm
    by (apply (unused_differs h _ _ o (fresh_unused h) Hm)).
  destruct He as [-> | ->]; simpl action.
  - apply call_required_decorator. by rewrite lookup_insert_ne.
  - apply call_provides_decorator. by rewrite lookup_insert_ne.
Qed.

(** X11. [required] and [provides], given a member and any valid options,
    return the member itself; the store gains one record, made from the
    options ([since] is 0 when not given), the member's [__dict__] gains or
    replaces the one attribute that points to it, and nothing else
    changes. *)
Theorem plain_decorator_effect (e : entry_point) (m : loc) (o : object)
    (kwargs : gmap string value) (h : heap) :
  e = EP_required ∨ e = EP_provides →
  h !! m = Some o →
  cap_ok e kwargs →
  offending e kwargs = ∅ →
  ∃ r : loc,
    h !! r = None ∧
    entry e [VRef m] kwargs h
    = (Ok (VRef m),
       <[m := Object (o_payload o)
                (<[metadata_attribute e := VRef r]> (o_dict o))]>
         (<[r := record_object (cls_of e)
                   (default (VInt 0) (kwargs !! "since")) (caps_of kwargs)]> h)).
Proof.
  intros He Hm Hcap Hoff. exists (fresh (dom h)).
  split; [apply fresh_unused|]. by apply plain_bare.
Qed.

Lemma plain_decorator_effect_witness :
  ∃ r : loc,
    ({[ 1%positive := Object (PFunction VNone) ∅ ]} : heap) !! r = None ∧
    entry EP_provides [VRef 1%positive] {["since" := VInt 3]}
          {[ 1%positive := Object (PFunction VNone) ∅ ]}
    = (Ok (VRef 1%positive),
       <[1%positive := Object (o_payload (Object (PFunction VNone) ∅))
                (<[metadata_attribute EP_provides := VRef r]>
                   (o_dict (Object (PFunction VNone) ∅)))]>
         (<[r := record_object (cls_of EP_provides)
                   (default (VInt 0)
                      (({["since" := VInt 3]} : gmap string value) !! "since"))
                   (caps_of {["since" := VInt 3]})]>
            {[ 1%positive := Object (PFunction VNone) ∅ ]})).
Proof.
  apply (plain_decorator_effect EP_provides 1%positive (Object (PFunction VNone) ∅)
           {["since" := VInt 3]}).
  - by right.
  - reflexivity.
  - intros Hin. vm_compute in Hin. discriminate.
  - by vm_compute.
Defined.

(** X12. [required_property], given any value as getter (nothing checks
    it) and any valid options, returns a new property object whose getter
    is that value and whose setter and deleter are [None]; its
    [__isrequiredmethod__] is a new record made from the options, and no
    object of the store before the call is changed (the getter is not
    annotated). When the getter is a function, the [__dict__] of the
    property holds the metadata and, as [__doc__], the function's
    docstring, and nothing else. *)
Theorem required_property_effect (g : value) (kwargs : gmap string value) (h : heap) :
  cap_ok EP_required_property kwargs →
  offending EP_required_property kwargs = ∅ →
  ∃ (r q : loc) (doc : value) (dict : gmap string value),
    h !! r = None ∧ h !! q = None ∧ r ≠ q ∧
    required_property [g] kwargs h
    = (Ok (VRef q),
       <[q := Object (PProperty CRequiredProperty g VNone VNone doc) dict]>
         (<[r := record_object CRequired
                   (default (VInt 0) (kwargs !! "since")) (caps_of kwargs)]> h)) ∧
    dict !! "__isrequiredmethod__" = Some (VRef r) ∧
    (∀ m fdoc d, g = VRef m → h !! m = Some (Object (PFunction fdoc) d) →
       dict = <["__doc__" := fdoc]> {["__isrequiredmethod__" := VRef r]}).
Proof.
  intros Hcap Hoff.
  destruct (partial_loc_unused EP_required_property kwargs h) as [Hq Hne].
  change (required_property [g] kwargs h)
    with (entry EP_required_property [g] kwargs h).
  rewrite entry_bare by done. simpl action.
  set (r := fresh (dom h)) in *.
  set (hr := <[r := record_object (cls_of EP_required_property)
                      (since_of kwargs) (caps_of kwargs)]> h) in *.
  destruct (call_RequiredProperty_ok hr (VRef r) g) as (dict & Hcall & Hdict).
  exists r, (fresh (dom hr)), VNone, dict.
  split; [apply fresh_unused|]. split; [exact Hq|]. split; [exact Hne|].
  split; [exact Hcall|]. split; [exact Hdict|].
  intros m fdoc d -> Hm.
  assert (hr !! m = Some (Object (PFunction fdoc) d)) as Hm'.
  { subst hr. rewrite lookup_insert_ne; [done|]. intros Heq.
    pose proof (fresh_unused h) as Hr. fold r in Hr. congruence. }
  assert (VRef m ≠ VRef (fresh (dom hr))) as Hg.
  { intros [= ->]. pose proof (fresh_unused hr). congruence. }
  rewrite (call_RequiredProperty hr _ _ Hg) in Hcall.
  injection Hcall as Hcall. apply (f_equal (λ x, x !! fresh (dom hr))) in Hcall.
  rewrite !lookup_insert_eq in Hcall. injection Hcall as <-.
  unfold property_dict. simpl. by rewrite Hm'.
Qed.

Lemma required_property_effect_witness :
  ∃ (r q : loc) (doc : value) (dict : gmap string value),
    ({[ 1%positive := Object (PFunction (VStr "doc")) ∅ ]} : heap) !! r = None ∧
    ({[ 1%positive := Object (PFunction (VStr "doc")) ∅ ]} : heap) !! q = None ∧
    r ≠ q ∧
    required_property [VRef 1%positive] {["cap" := VStr "x"]}
                      {[ 1%positive := Object (PFunction (VStr "doc")) ∅ ]}
    = (Ok (VRef q),
       <[q := Object (PProperty CRequiredProperty (VRef 1%positive)
                                VNone VNone doc) dict]>
         (<[r := record_object CRequired
                   (default (VInt 0)
                      (({["cap" := VStr "x"]} : gmap string value) !! "since"))
                   (caps_of {["cap" := VStr "x"]})]>
            {[ 1%positive := Object (PFunction (VStr "doc")) ∅ ]})) ∧
    dict !! "__isrequiredmethod__" = Some (VRef r) ∧
    (∀ m fdoc d, VRef 1%positive = VRef m →
       ({[ 1%positive := Object (PFunction (VStr "doc")) ∅ ]} : heap) !! m
       = Some (Object (PFunction fdoc) d) →
       dict = <["__doc__" := fdoc]> {["__isrequiredmethod__" := VRef r]}).
Proof.
  apply (required_property_effect (VRef 1%positive) {["cap" := VStr "x"]}
           {[ 1%positive := Object (PFunction (VStr "doc")) ∅ ]}).
  - intros _ v Hv _. vm_compute in Hv. by injection Hv as <-.
  - by vm_compute.
Defined.

(** X13. [required] and [provides] need a member that can take
    attributes: given [None], a number, a string, a list or a set, with
    valid options, they raise [AttributeError]; the record has been made by
    then, and no object of the store before the call is changed. *)
Theorem plain_decorator_needs_object (e : entry_point) (m : value)
    (kwargs : gmap string value) (h : heap) :
  e = EP_required ∨ e = EP_provides →
  plain_value m = true →
  cap_ok e kwargs →
  offending e kwargs = ∅ →
  ∃ (msg : string) (r : loc),
    h !! r = None ∧
    entry e [m] kwargs h
    = (Raise (AttributeError msg),
       <[r := record_object (cls_of e)
                (default (VInt 0) (kwargs !! "since")) (caps_of kwargs)]> h).
Proof.
  intros He Hm Hcap Hoff.
  exists (metadata_attribute e), (fresh (dom h)). split; [apply fresh_unused|].
  rewrite entry_bare by done.
  destruct He as [-> | ->]; simpl action; unfold call;
    unfold decorator_of_required, decorator_of_provides, setattr; unfold_M;
    by destruct m.
Qed.

Lemma plain_decorator_needs_object_witness :
  ∃ (msg : string) (r : loc),
    (∅ : heap) !! r = None ∧
    entry EP_required [VStr "func"] ∅ ∅
    = (Raise (AttributeError msg),
       <[r := record_object (cls_of EP_required)
                (default (VInt 0) ((∅ : gmap string value) !! "since"))
                (caps_of ∅)]> ∅).
Proof.
  apply (plain_decorator_needs_object EP_required (VStr "func") ∅ ∅).
  - by left.
  - reflexivity.
  - intros _ v Hv. vm_compute in Hv. discriminate.
  - by vm_compute.
Defined.

(** X14. Decorations of one member compose. After [required] or [provides]
    and then [required] or [provides] again, with valid options, the
    member carries the record of the second decoration; it still carries
    the record of the first when the two decorators differ (a member may
    have both a requirement and a provision), and has lost it when they are
    the same (at most one record of a kind). Both records are in the
    store, and they are different objects. *)
Theorem plain_decorators_compose (e1 e2 : entry_point) (m : loc) (o : object)
    (kw1 kw2 : gmap string value) (h : heap) :
  e1 = EP_required ∨ e1 = EP_provides →
  e2 = EP_required ∨ e2 = EP_provides →
  h !! m = Some o →
  cap_ok e1 kw1 → offending e1 kw1 = ∅ →
  cap_ok e2 kw2 → offending e2 kw2 = ∅ →
  ∃ (r1 r2 : loc) (h2 : heap),
    (_ ← entry e1 [VRef m] kw1; entry e2 [VRef m] kw2) h = (Ok (VRef m), h2) ∧
    h !! r1 = None ∧ h !! r2 = None ∧ r1 ≠ r2 ∧
    h2 !! r1 = Some (record_object (cls_of e1) (since_of kw1) (caps_of kw1)) ∧
    h2 !! r2 = Some (record_object (cls_of e2) (since_of kw2) (caps_of kw2)) ∧
    carried e2 h2 m = Some (VRef r2) ∧
    (e1 ≠ e2 → carried e1 h2 m = Some (VRef r1)) ∧
    (e1 = e2 → carried e1 h2 m ≠ Some (VRef r1)).
Proof.
  intros He1 He2 Hm Hcap1 Hoff1 Hcap2 Hoff2.
  unfold mbind, M_bind. rewrite (plain_bare e1 m o kw1 h) by done.
  set (r1 := fresh (dom h)).
  set (rec1 := record_object (cls_of e1) (since_of kw1) (caps_of kw1)).
  set (o1 := Object (o_payload o) (<[metadata_attribute e1 := VRef r1]> (o_dict o))).
  set (h1 := <[m := o1]> (<[r1 := rec1]> h)).
  assert (h !! r1 = None) as Hr1 by apply fresh_unused.
  assert (r1 ≠ m) as Hr1m by (by eapply unused_differs).
  assert (h1 !! m = Some o1) as Hm1 by apply lookup_insert_eq.
  assert (h1 !! r1 = Some rec1) as Hrec1.
  { subst h1. rewrite lookup_insert_ne by done. apply lookup_insert_eq. }
  rewrite (plain_bare e2 m o1 kw2 h1) by done.
  set (r2 := fresh (dom h1)).
  pose proof (fresh_unused h1) as Hr2. fold r2 in Hr2.
  assert (r2 ≠ m ∧ r2 ≠ r1) as [Hr2m Hr21]
    by (split; intros Heq; rewrite Heq in Hr2; congruence).
  assert (h !! r2 = None) as Hr2h.
  { subst h1. by rewrite !lookup_insert_ne in Hr2. }
  exists r1, r2. eexists. split; [reflexivity|].
  split; [done|]. split; [done|]. split; [done|].
  split. { by rewrite !lookup_insert_ne. }
  split. { rewrite lookup_insert_ne by done. apply lookup_insert_eq. }
  unfold carried. rewrite !lookup_insert_eq. simpl.
  split; [apply lookup_insert_eq|]. split.
  - intros Hne. rewrite lookup_insert_ne; [apply lookup_insert_eq|].
    destruct He1 as [-> | ->], He2 as [-> | ->]; done.
  - intros <-. rewrite lookup_insert_eq. congruence.
Qed.

Lemma plain_decorators_compose_witness :
  ∃ (r1 r2 : loc) (h2 : heap),
    (_ ← entry EP_required [VRef 1%positive] {["cap" := VStr "x"]};
     entry EP_provides [VRef 1%positive] {["since" := VInt 2]})
      {[ 1%positive := Object (PFunction VNone) ∅ ]} = (Ok (VRef 1%positive), h2) ∧
    ({[ 1%positive := Object (PFunction VNone) ∅ ]} : heap) !! r1 = None ∧
    ({[ 1%positive := Object (PFunction VNone) ∅ ]} : heap) !! r2 = None ∧ r1 ≠ r2 ∧
    h2 !! r1 = Some (record_object (cls_of EP_required)
                       (since_of {["cap" := VStr "x"]}) (caps_of {["cap" := VStr "x"]})) ∧
    h2 !! r2 = Some (record_object (cls_of EP_provides)
                       (since_of {["since" := VInt 2]})
                       (caps_of {["since" := VInt 2]})) ∧
    carried EP_provides h2 1%positive = Some (VRef r2) ∧
    (EP_required ≠ EP_provides → carried EP_required h2 1%positive = Some (VRef r1)) ∧
    (EP_required = EP_provides → carried EP_required h2 1%positive ≠ Some (VRef r1)).
Proof.
  apply (plain_decorators_compose EP_required EP_provides 1%positive
           (Object (PFunction VNone) ∅) {["cap" := VStr "x"]} {["since" := VInt 2]}).
  - by left.
  - by right.
  - reflexivity.
  - intros _ v Hv _. vm_compute in Hv. by injection Hv as <-.
  - by vm_compute.
  - intros Hin. vm_compute in Hin. discriminate.
  - by vm_compute.
Defined.

(** ** The [cap] option up to normalization *)

Lemma leftover_insert_cap (e : entry_point) (kwargs : gmap string value) (v : value) :
  "cap" ∈ recognized e →
  leftover e (<["cap" := v]> kwargs) = leftover e (delete "cap" kwargs).
Proof.
  intros Hc. destruct e; simpl in *;
    try (apply elem_of_singleton in Hc; discriminate);
    apply map_eq; intros k;
    (destruct (decide (k = "cap")) as [->|Hk];
     [ by rewrite !lookup_delete_eq
     | rewrite !(lookup_delete_ne _ "cap") by done;
       destruct (decide (k = "since")) as [->|Hs];
       [ by rewrite !lookup_delete_eq
       | rewrite !(lookup_delete_ne _ "since") by done;
         by rewrite lookup_insert_ne, lookup_delete_ne ] ]).
Qed.

Lemma caps_of_insert (kwargs : gmap string value) (v : value) :
  caps_of (<["cap" := v]> kwargs) = normalized_cap v.
Proof. by rewrite <- normalized_cap_caps_of, lookup_insert_eq. Qed.

Lemma entry_with_cap (e : entry_point) (args : list value)
    (kwargs : gmap string value) (v : value) (h : heap) :
  "cap" ∈ recognized e →
  (truthy v = true → iterable v = true) →
  entry e args (<["cap" := v]> kwargs) h =
  if bool_decide (leftover e (delete "cap" kwargs) ≠ ∅) then
    (Raise (TypeError (invalid_keyword_arguments
                         (sorted_keys (leftover e (delete "cap" kwargs))))), h)
  else if bool_decide (1 < length args)%nat then
    (Raise (TypeError (invalid_positional_arguments (length args))), h)
  else
    (inst ← instantiate (cls_of e)
              (record_dict (cls_of e) (since_of kwargs) (normalized_cap v));
     match args with
     | func :: _ => call (action e) [inst; func]
     | [] => partial (action e) [inst]
     end) h.
Proof.
  intros Hc Hv. rewrite entry_unfold.
  - rewrite leftover_insert_cap, caps_of_insert by done.
    unfold since_of. by rewrite lookup_insert_ne.
  - intros _ v'. rewrite lookup_insert_eq. by intros [= <-].
Qed.

Lemma list_to_set_empty_iff (l : list atom) :
  (list_to_set l : gset atom) = ∅ ↔ l = [].
Proof.
  split; [|by intros ->]. destruct l as [|x l]; [done|].
  intros Hempty. assert (x ∈ (∅ : gset atom)) as Hx
    by (rewrite <- Hempty; apply elem_of_list_to_set; left).
  by apply not_elem_of_empty in Hx.
Qed.

Lemma normalized_cap_list (l1 l2 : list atom) :
  (list_to_set l1 : gset atom) = list_to_set l2 →
  normalized_cap (VList l1) = normalized_cap (VList l2).
Proof.
  intros Heq. simpl.
  destruct (decide (l1 = [])) as [->|Hne].
  - symmetry in Heq. apply list_to_set_empty_iff in Heq as ->. done.
  - assert (l2 ≠ []) by (intros ->; by apply Hne, list_to_set_empty_iff).
    rewrite !bool_decide_eq_false_2 by done. by rewrite Heq.
Qed.

(** X15. A decorator that recognizes [cap] sees it only through the set it
    is normalized to. Whatever the other arguments, the call does the same
    (the same outcome and the same store) for a non-empty string and the
    list of that one string, for two lists with the same elements,
    whatever their order and repetitions, and for a set and the list of its
    elements. *)
Theorem cap_only_through_its_set (e : entry_point) (args : list value)
    (kwargs : gmap string value) (h : heap) :
  "cap" ∈ recognized e →
  (∀ s, s ≠ "" →
     entry e args (<["cap" := VStr s]> kwargs) h
     = entry e args (<["cap" := VList [AStr s]]> kwargs) h) ∧
  (∀ l1 l2, (list_to_set l1 : gset atom) = list_to_set l2 →
     entry e args (<["cap" := VList l1]> kwargs) h
     = entry e args (<["cap" := VList l2]> kwargs) h) ∧
  (∀ f s,
     entry e args (<["cap" := VSet f s]> kwargs) h
     = entry e args (<["cap" := VList (elements s)]> kwargs) h).
Proof.
  intros Hc. split; [|split].
  - intros s Hs. rewrite !entry_with_cap by done.
    assert (normalized_cap (VStr s) = normalized_cap (VList [AStr s])) as ->;
      [|done].
    simpl. rewrite !bool_decide_eq_false_2 by done.
    by rewrite (right_id_L ∅ (∪)).
  - intros l1 l2 Heq. rewrite !entry_with_cap by done.
    by rewrite (normalized_cap_list l1 l2 Heq).
  - intros f s. rewrite !entry_with_cap by done.
    assert (normalized_cap (VSet f s) = normalized_cap (VList (elements s))) as ->;
      [|done].
    simpl. destruct (decide (s = ∅)) as [->|Hne].
    + by rewrite elements_empty.
    + rewrite bool_decide_eq_false_2 by done.
      rewrite bool_decide_eq_false_2.
      * by rewrite list_to_set_elements_L.
      * intros Hnil. apply Hne. by apply elements_empty_inv, leibniz_equiv in Hnil.
Qed.

Lemma cap_only_through_its_set_witness :
  entry EP_required [] (<["cap" := VList [AStr "a"; AStr "b"]]> ∅) ∅
  = entry EP_required [] (<["cap" := VList [AStr "b"; AStr "a"; AStr "b"]]> ∅) ∅.
Proof.
  assert ("cap" ∈ recognized EP_required) as Hc
    by (apply (bool_decide_unpack _); by vm_compute).
  destruct (cap_only_through_its_set EP_required [] ∅ ∅ Hc) as (_ & Hlists & _).
  apply Hlists. by vm_compute.
Defined.

(** X16. A false [cap] is no [cap]: for a decorator that recognizes it,
    giving [None], [False], 0, the empty string, the empty list or the
    empty set does exactly what leaving the option out does. *)
Theorem cap_false_is_omitted (e : entry_point) (args : list value)
    (kwargs : gmap string value) (h : heap) (v : value) :
  "cap" ∈ recognized e →
  truthy v = false →
  entry e args (<["cap" := v]> kwargs) h = entry e args (delete "cap" kwargs) h.
Proof.
  intros Hc Hv. rewrite entry_with_cap by (done || congruence).
  rewrite (entry_unfold e args (delete "cap" kwargs)).
  - unfold caps_of, since_of.
    rewrite lookup_delete_eq, lookup_delete_ne by done.
    assert (normalized_cap v = VNone) as ->.
    { destruct v; try done; simpl in Hv; apply negb_false_iff in Hv;
        simpl; by rewrite Hv. }
    destruct e; simpl in Hc |- *;
      try (apply elem_of_singleton in Hc; discriminate);
      rewrite ?lookup_delete_eq; reflexivity.
  - intros _ v'. by rewrite lookup_delete_eq.
Qed.

Lemma cap_false_is_omitted_witness :
  entry EP_required [] (<["cap" := VStr ""]> {["since" := VInt 1]}) ∅
  = entry EP_required [] (delete "cap" {["since" := VInt 1]}) ∅.
Proof.
  apply (cap_false_is_omitted EP_required [] {["since" := VInt 1]} ∅ (VStr "")).
  - apply (bool_decide_unpack _). by vm_compute.
  - reflexivity.
Defined.

(** ** The deferred decorators *)

(** X17. The deferred decorator of [required_property] is the class
    [RequiredProperty] with the record as first argument: besides the
    getter it takes a setter, a deleter and a doc, in this order; the new
    property it returns has the getter, the setter and the deleter given
    and the record as [__isrequiredmethod__], and the store is otherwise as
    before. With more than these four arguments it raises [TypeError]. *)
Theorem deferred_property_takes_accessors (q : loc) (inst g : value)
    (rest : list value) (dq : gmap string value) (h : heap) :
  h !! q = Some (Object (PPartial (PropertyClass CRequiredProperty) [inst]) dq) →
  ((length rest ≤ 3)%nat →
     ∃ (doc : value) (dict : gmap string value),
       partial_call (VRef q) (g :: rest) h
       = (Ok (VRef (fresh (dom h))),
          <[fresh (dom h) :=
              Object (PProperty CRequiredProperty g (optional rest 0)
                                (optional rest 1) doc) dict]> h) ∧
       dict !! "__isrequiredmethod__" = Some inst) ∧
  ((3 < length rest)%nat →
     ∃ msg, (partial_call (VRef q) (g :: rest) h).1 = Raise (TypeError msg)).
Proof.
  intros Hq. rewrite (partial_call_spec _ _ _ _ _ _ Hq). simpl app.
  unfold call. split; intros Hlen.
  - rewrite bool_decide_eq_true_2 by (simpl; lia).
    destruct (RequiredProperty_new_ok inst (optional (g :: rest) 0)
                (optional (g :: rest) 1) (optional (g :: rest) 2)
                (optional (g :: rest) 3) h) as (dict & Hnew & Hdict).
    by exists (optional (g :: rest) 3), dict.
  - rewrite bool_decide_eq_false_2 by (simpl; lia). by eexists.
Qed.

Lemma deferred_property_takes_accessors_witness :
  ∃ (doc : value) (dict : gmap string value),
    partial_call (VRef 2%positive) [VRef 3%positive; VRef 4%positive]
      {[ 1%positive := record_object CRequired (VInt 0) VNone;
         2%positive := Object (PPartial (PropertyClass CRequiredProperty)
                                        [VRef 1%positive]) ∅;
         3%positive := Object (PFunction VNone) ∅;
         4%positive := Object (PFunction VNone) ∅ ]}
    = (Ok (VRef (fresh (dom
         ({[ 1%positive := record_object CRequired (VInt 0) VNone;
             2%positive := Object (PPartial (PropertyClass CRequiredProperty)
                                            [VRef 1%positive]) ∅;
             3%positive := Object (PFunction VNone) ∅;
             4%positive := Object (PFunction VNone) ∅ ]} : heap)))),
       <[fresh (dom
           ({[ 1%positive := record_object CRequired (VInt 0) VNone;
               2%positive := Object (PPartial (PropertyClass CRequiredProperty)
                                              [VRef 1%positive]) ∅;
               3%positive := Object (PFunction VNone) ∅;
               4%positive := Object (PFunction VNone) ∅ ]} : heap)) :=
           Object (PProperty CRequiredProperty (VRef 3%positive)
                             (optional [VRef 4%positive] 0)
                             (optional [VRef 4%positive] 1) doc) dict]>
         {[ 1%positive := record_object CRequired (VInt 0) VNone;
            2%positive := Object (PPartial (PropertyClass CRequiredProperty)
                                           [VRef 1%positive]) ∅;
            3%positive := Object (PFunction VNone) ∅;
            4%positive := Object (PFunction VNone) ∅ ]}) ∧
    dict !! "__isrequiredmethod__" = Some (VRef 1%positive).
Proof.
  refine (proj1 (deferred_property_takes_accessors 2%positive (VRef 1%positive)
                   (VRef 3%positive) [VRef 4%positive] ∅ _ _) _).
  - reflexivity.
  - simpl. lia.
Defined.

(** X18. The deferred decorator of [required] and of [provides] takes
    exactly one argument, the member: applied to none or to several it
    raises [TypeError] and leaves the store as it was. *)
Theorem deferred_plain_takes_one (q : loc) (f : callable) (inst : value)
    (args : list value) (dq : gmap string value) (h : heap) :
  f = required_decorator ∨ f = provides_decorator →
  h !! q = Some (Object (PPartial f [inst]) dq) →
  length args ≠ 1%nat →
  ∃ msg, partial_call (VRef q) args h = (Raise (TypeError msg), h).
Proof.
  intros Hf Hq Hlen. rewrite (partial_call_spec _ _ _ _ _ _ Hq).
  destruct args as [|a [|b args]]; [| done |];
    destruct Hf as [-> | ->]; by eexists.
Qed.

Lemma deferred_plain_takes_one_witness :
  ∃ msg,
    partial_call (VRef 2%positive) []
      {[ 1%positive := record_object CProvides (VInt 0) VNone;
         2%positive := Object (PPartial provides_decorator [VRef 1%positive]) ∅ ]}
    = (Raise (TypeError msg),
       {[ 1%positive := record_object CProvides (VInt 0) VNone;
          2%positive := Object (PPartial provides_decorator [VRef 1%positive]) ∅ ]}).
Proof.
  apply (deferred_plain_takes_one 2%positive provides_decorator
           (VRef 1%positive) [] ∅).
  - by right.
  - reflexivity.
  - discriminate.
Defined.

(** ** The classes *)

(** X19. [RequiredProperty] keeps what it is given: whatever [req] is
    (nothing checks that it is a [Required]), construction succeeds; the
    new property object, at an identity not in use before, has [req] as
    [__isrequiredmethod__] and the getter, setter and deleter given, and
    the store is otherwise as before. When the getter is a function and no
    doc is given, the [__dict__] of the property holds [req] and, as
    [__doc__], the function's docstring, and nothing else. *)
Theorem RequiredProperty_keeps_req (req fget fset fdel doc : value) (h : heap) :
  ∃ (q : loc) (doc' : value) (dict : gmap string value),
    h !! q = None ∧
    (prop ← RequiredProperty.new req fget fset fdel doc;
     getattr prop "__isrequiredmethod__") h
    = (Ok req,
       <[q := Object (PProperty CRequiredProperty fget fset fdel doc') dict]> h) ∧
    dict !! "__isrequiredmethod__" = Some req ∧
    (∀ m fdoc d, fget = VRef m → h !! m = Some (Object (PFunction fdoc) d) →
       doc = VNone →
       dict = <["__doc__" := fdoc]> {["__isrequiredmethod__" := req]}).
Proof.
  destruct (RequiredProperty_new_ok req fget fset fdel doc h)
    as (dict & Hnew & Hdict).
  exists (fresh (dom h)), doc, dict. split; [apply fresh_unused|].
  split; [|split; [exact Hdict|]].
  - unfold mbind, M_bind. rewrite Hnew.
    eapply getattr_spec; [apply lookup_insert_eq | exact Hdict].
  - intros m fdoc d -> Hm ->.
    assert (VRef m ≠ VRef (fresh (dom h))) as Hg.
    { intros [= ->]. pose proof (fresh_unused h). congruence. }
    rewrite (RequiredProperty_new_spec _ _ _ _ _ _ Hg) in Hnew.
    injection Hnew as Hnew. apply (f_equal (λ x, x !! fresh (dom h))) in Hnew.
    rewrite !lookup_insert_eq in Hnew. injection Hnew as <-.
    unfold property_dict. simpl. by rewrite Hm.
Qed.

(** X20. The metadata classes store their fields as given, whatever their
    type: reading [since] and [caps] of a new [Required], and [since] of a
    new [Provides], gives back the constructor's arguments. *)
Theorem records_store_verbatim (since caps : value) (h : heap) :
  (r ← Required.new since caps;
   a ← getattr r "since"; b ← getattr r "caps"; mret (a, b)) h
  = (Ok (since, caps),
     <[fresh (dom h) := record_object CRequired since caps]> h) ∧
  (r ← Provides.new since; getattr r "since") h
  = (Ok since, <[fresh (dom h) := record_object CProvides since VNone]> h).
Proof.
  split; unfold mbind, M_bind.
  - rewrite Required_new_spec.
    destruct (is_Required_new since caps h) as (o & Ho & _ & Hs & Hc).
    rewrite (getattr_spec _ _ _ _ _ Ho Hs).
    by rewrite (getattr_spec _ _ _ _ _ Ho Hc).
  - rewrite Provides_new_spec.
    eapply getattr_spec; [apply lookup_insert_eq|]. apply lookup_insert_eq.
Qed.

(** ** The key set and the class *)

Ltac decide_subset :=
  match goal with
  | |- context [bool_decide (?X ⊆ ?Y)] =>
      let b := eval vm_compute in (bool_decide (X ⊆ Y)) in
      change (bool_decide (X ⊆ Y)) with b
  end.

Lemma instantiate_consumed (keys : gset string) (kwargs : gmap string value)
    (cls : record_class) (h : heap) :
  (keys_fit keys cls ∧ ∃ l h', instantiate cls (consumed keys kwargs) h = (Ok (VRef l), h')) ∨
  (¬ keys_fit keys cls ∧ ∃ msg, instantiate cls (consumed keys kwargs) h = (Raise (TypeError msg), h)).
Proof.
  unfold consumed, keys_fit.
  destruct (bool_decide ("since" ∈ keys)) eqn:Hs, (bool_decide ("cap" ∈ keys)) eqn:Hc;
    [apply bool_decide_eq_true in Hs | apply bool_decide_eq_true in Hs
    | apply bool_decide_eq_false in Hs | apply bool_decide_eq_false in Hs];
    [apply bool_decide_eq_true in Hc | apply bool_decide_eq_false in Hc
    | apply bool_decide_eq_true in Hc | apply bool_decide_eq_false in Hc];
    destruct cls; unfold instantiate; cbv zeta; decide_subset; cbv iota;
    rewrite ?lookup_insert_eq, ?lookup_insert_ne, ?lookup_empty by done;
    rewrite ?lookup_insert_eq, ?lookup_empty;
    first [ left; split; [tauto|];
            first [rewrite Required_new_spec | rewrite Provides_new_spec];
            by eexists _, _
          | right; split; [tauto|]; by eexists ].
Qed.

(** X21. The key set handed to [_helper] has to fit the class: with valid
    options and no member, [_helper] returns a deferred decorator exactly
    when it is given [since] and [cap] as keys for [Required], and [since]
    without [cap] for [Provides], as the four decorators do; with any other
    key set the call of the class raises [TypeError]. *)
Theorem helper_keys_must_fit (kwargs : gmap string value) (d : callable)
    (keys : gset string) (cls : record_class) (h : heap) :
  cap_value_ok keys kwargs →
  unconsumed keys kwargs = ∅ →
  ((∃ p h', _helper [] kwargs d keys cls h = (Ok (VRef p), h')) ↔ keys_fit keys cls) ∧
  (¬ keys_fit keys cls →
   ∃ msg, (_helper [] kwargs d keys cls h).1 = Raise (TypeError msg)).
Proof.
  intros Hcap Hleft. rewrite helper_unfold by done.
  rewrite bool_decide_eq_false_2 by (intros Hne; by apply Hne).
  rewrite bool_decide_eq_false_2 by (simpl; lia).
  unfold mbind, M_bind.
  destruct (instantiate_consumed keys kwargs cls h)
    as [[Hfit (l & h' & ->)] | [Hfit (msg & ->)]].
  - split; [|done]. split; [done|]. intros _. by eexists _, _.
  - split; [|by eexists]. split; [|done]. by intros (p & h' & [=]).
Qed.

Lemma helper_keys_must_fit_witness :
  ∃ msg, (_helper [] ∅ provides_decorator {["since"; "cap"]} CProvides ∅).1
         = Raise (TypeError msg).
Proof.
  refine (proj2 (helper_keys_must_fit ∅ provides_decorator {["since"; "cap"]}
                   CProvides ∅ _ _) _).
  - intros _ v Hv. vm_compute in Hv. discriminate.
  - by vm_compute.
  - intros [_ Hnot]. apply Hnot. apply (bool_decide_unpack _). by vm_compute.
Defined.
